(** * xequinet: edge geometry and gradient-derived properties

    A shallow embedding of [xequinet/nn/basic.py] ([compute_edge_data],
    [compute_forces_only], [compute_virial_only],
    [compute_forces_and_virial], [compute_properties]) and of
    [BaseModel.forward] in [xequinet/nn/model.py], with the batch keys of
    [xequinet/utils/keys.py].

    Floating-point tensor entries are idealised as real numbers.  A tensor
    is a value together with its [requires_grad] flag; the batch is a
    finite map from keys to tensors.  Python exceptions are the [Err]
    results of an error monad; the calls into the autograd engine run in a
    state-and-error monad whose state is the log of backward passes. *)

From Stdlib Require Import Reals Lra ZArith Lia.
From stdpp Require Import base option list strings gmap fin_maps.

Local Open Scope string_scope.
Local Open Scope Z_scope.

(** ** Exceptions and the error monad *)

Inductive exn :=
  | KeyError (key : string)   (* [data[k]] on a missing key *)
  | IndexError                (* index out of range *)
  | ValueError                (* unpacking a sequence of the wrong length *)
  | ShapeError                (* operands of the wrong rank, dtype or size *)
  | EmptyReduction            (* [max] of a tensor without elements *)
  | NoGradFn                  (* the differentiated output does not require grad *)
  | InputNoGrad               (* a differentiation input does not require grad *)
  | UnusedInput.              (* an input is not in the graph, [allow_unused=False] *)

Inductive result (A : Type) :=
  | Ok (a : A)
  | Err (e : exn).
Arguments Ok {A} a.
Arguments Err {A} e.

#[global] Instance result_ret : MRet result := @Ok.
#[global] Instance result_bind : MBind result := fun A B f r =>
  match r with Ok a => f a | Err e => Err e end.
#[global] Instance result_fmap : FMap result := fun A B f r =>
  match r with Ok a => Ok (f a) | Err e => Err e end.

(** [mapM] for the error monad: the first failure wins. *)
Fixpoint traverse {A B} (f : A -> result B) (l : list A) : result (list B) :=
  match l with
  | [] => Ok []
  | x :: l' => y ← f x; ys ← traverse f l'; Ok (y :: ys)
  end.

(** ** Tensor values *)

Definition vec3 : Type := R * R * R.
Definition mat3 : Type := vec3 * vec3 * vec3.   (* three rows *)

Inductive tvalue :=
  | Long1 (l : list Z)               (* integer tensor of shape (n,) *)
  | Long2 (l : list (Z * Z))         (* integer tensor of shape (2, n), by column *)
  | Float1 (l : list R)              (* shape (n,) *)
  | Float2 (l : list vec3)           (* shape (n, 3) *)
  | Float3 (l : list mat3).          (* shape (n, 3, 3) *)

Record tensor := Tensor { tval : tvalue; requires_grad : bool }.

Module Vec3.
Local Open Scope R_scope.

Definition zero : vec3 := (0, 0, 0).
Definition add (u v : vec3) : vec3 :=
  let '(a, b, c) := u in let '(x, y, z) := v in (a + x, b + y, c + z).
Definition sub (u v : vec3) : vec3 :=
  let '(a, b, c) := u in let '(x, y, z) := v in (a - x, b - y, c - z).
Definition scale (k : R) (v : vec3) : vec3 :=
  let '(x, y, z) := v in (k * x, k * y, k * z).
Definition dot (u v : vec3) : R :=
  let '(a, b, c) := u in let '(x, y, z) := v in a * x + b * y + c * z.
(** [torch.linalg.norm(v, dim=-1)] on one row. *)
Definition norm (v : vec3) : R := sqrt (dot v v).
End Vec3.

Module Mat3.
Local Open Scope R_scope.

Definition zero : mat3 := (Vec3.zero, Vec3.zero, Vec3.zero).
Definition add (m n : mat3) : mat3 :=
  let '(a, b, c) := m in let '(x, y, z) := n in
  (Vec3.add a x, Vec3.add b y, Vec3.add c z).
Definition scale (k : R) (m : mat3) : mat3 :=
  let '(a, b, c) := m in (Vec3.scale k a, Vec3.scale k b, Vec3.scale k c).
Definition transpose (m : mat3) : mat3 :=
  let '((a11, a12, a13), (a21, a22, a23), (a31, a32, a33)) := m in
  ((a11, a21, a31), (a12, a22, a32), (a13, a23, a33)).
(** Row vector times matrix: [out_j = sum_i v_i * m_ij]. *)
Definition vecmul (v : vec3) (m : mat3) : vec3 :=
  let '(x, y, z) := v in let '(a, b, c) := m in
  Vec3.add (Vec3.add (Vec3.scale x a) (Vec3.scale y b)) (Vec3.scale z c).
(** Matrix product, row by row. *)
Definition mul (m n : mat3) : mat3 :=
  let '(a, b, c) := m in (vecmul a n, vecmul b n, vecmul c n).
End Mat3.

(** ** Batch keys ([xequinet/utils/keys.py]) *)

Module keys.
Definition POSITIONS : string := "pos".
Definition ATOMIC_NUMBERS : string := "atomic_numbers".
Definition EDGE_INDEX : string := "edge_index".
Definition CELL_OFFSETS : string := "cell_offsets".
Definition CELL : string := "cell".
Definition BATCH : string := "batch".
Definition BATCH_PTR : string := "ptr".
Definition CENTER_IDX : nat := 0.
Definition NEIGHBOR_IDX : nat := 1.
Definition EDGE_LENGTH : string := "edge_length".
Definition EDGE_VECTOR : string := "edge_vector".
Definition STRAIN : string := "strain".
Definition TOTAL_ENERGY : string := "energy".
Definition FORCES : string := "forces".
Definition VIRIAL : string := "virial".
End keys.

(** The batch and the returned mapping are Python dicts from keys to
    tensors. *)
Abbreviation dict := (gmap string tensor).

(** [data[k]]: raises [KeyError] on a missing key. *)
Definition getitem (data : dict) (k : string) : result tensor :=
  match data !! k with
  | Some t => Ok t
  | None => Err (KeyError k)
  end.

(** ** The torch primitives the source calls

    Each definition follows the documented behaviour of the library call
    it is named after, on the ranks the data model fixes: positions,
    offsets and edge vectors are (n, 3), cells and strains are (n, 3, 3),
    index tensors are integer. *)

Module Torch.

(** The entries of a tensor of the rank and dtype that a call expects;
    a tensor of another kind is outside the data model and is rejected. *)
Definition as_long1 (v : tvalue) : result (list Z) :=
  match v with Long1 l => Ok l | _ => Err ShapeError end.
Definition as_long2 (v : tvalue) : result (list (Z * Z)) :=
  match v with Long2 l => Ok l | _ => Err ShapeError end.
Definition as_float2 (v : tvalue) : result (list vec3) :=
  match v with Float2 l => Ok l | _ => Err ShapeError end.
Definition as_float3 (v : tvalue) : result (list mat3) :=
  match v with Float3 l => Ok l | _ => Err ShapeError end.

(** [t.shape[0]] and [t.numel()]. *)
Definition shape0 (v : tvalue) : nat :=
  match v with
  | Long1 l => length l
  | Long2 _ => 2
  | Float1 l => length l
  | Float2 l => length l
  | Float3 l => length l
  end.
Definition numel (v : tvalue) : nat :=
  match v with
  | Long1 l => length l
  | Long2 l => 2 * length l
  | Float1 l => length l
  | Float2 l => 3 * length l
  | Float3 l => 9 * length l
  end.

(** [edge_index[0]] and [edge_index[1]]. *)
Definition row (i : nat) (e : list (Z * Z)) : result (list Z) :=
  match i with
  | O => Ok (e.*1)
  | S O => Ok (e.*2)
  | _ => Err IndexError
  end.

(** [torch.zeros(n, dtype=torch.long)] and [torch.zeros((n, 3, 3))]; a
    negative size raises. *)
Definition zeros_long (n : nat) : list Z := replicate n 0.
Definition zeros3 (n : Z) : result (list mat3) :=
  if decide (n < 0) then Err ShapeError
  else Ok (replicate (Z.to_nat n) Mat3.zero).

(** [t.max()]: raises on a tensor without elements. *)
Definition max (l : list Z) : result Z :=
  match l with
  | [] => Err EmptyReduction
  | x :: l' => Ok (foldr Z.max x l')
  end.

(** [torch.index_select(t, 0, index)]: every index must lie in
    [0, t.shape[0]). *)
Definition index_select {A} (t : list A) (index : list Z) : result (list A) :=
  traverse (fun i =>
    if decide (0 <= i) then
      match t !! Z.to_nat i with
      | Some x => Ok x
      | None => Err IndexError
      end
    else Err IndexError) index.

(** Entrywise binary operation on the leading axis, with torch's
    broadcasting of an axis of size one. *)
Definition broadcast {A B C} (f : A -> B -> C) (a : list A) (b : list B)
  : result (list C) :=
  if decide (length a = length b) then Ok (zip_with f a b)
  else match a, b with
       | [x], _ => Ok (f x <$> b)
       | _, [y] => Ok ((fun x => f x y) <$> a)
       | _, _ => Err ShapeError
       end.

(** [torch.bmm]: the batch sizes must agree. *)
Definition bmm (a b : list mat3) : result (list mat3) :=
  if decide (length a = length b) then Ok (zip_with Mat3.mul a b)
  else Err ShapeError.
(** [torch.bmm(v.unsqueeze(1), m).squeeze(1)] for [v] of shape (n, 3). *)
Definition bmm_rows (v : list vec3) (m : list mat3) : result (list vec3) :=
  if decide (length v = length m) then Ok (zip_with Mat3.vecmul v m)
  else Err ShapeError.

(** [cell.squeeze(0)] as the (3, 3) operand of [einsum("ni, ij -> nj")]:
    the leading axis goes only when its size is one, and the
    contraction raises on an operand that kept it. *)
Definition squeeze0 (c : list mat3) : result mat3 :=
  match c with
  | [m] => Ok m
  | _ => Err ShapeError
  end.
(** [torch.einsum("ni, ij -> nj", a, m)]. *)
Definition einsum_ni_ij (a : list vec3) (m : mat3) : list vec3 :=
  (fun v => Mat3.vecmul v m) <$> a.
(** [torch.einsum("ni, nij -> nj", a, m)]. *)
Definition einsum_ni_nij (a : list vec3) (m : list mat3) : result (list vec3) :=
  broadcast Mat3.vecmul a m.

(** [torch.linalg.norm(v, dim=-1)]. *)
Definition norm (v : list vec3) : list R := Vec3.norm <$> v.

(** [strain.transpose(1, 2)]. *)
Definition transpose12 (m : list mat3) : list mat3 := Mat3.transpose <$> m.

(** [t.requires_grad_()]: sets the flag in place. *)
Definition requires_grad_ (t : tensor) : tensor := Tensor (tval t) true.

(** [torch.zeros_like], [torch.ones_like] and [k * t] on float tensors;
    integer tensors are left as they are by the scaling. *)
Definition zeros_like (v : tvalue) : tvalue :=
  match v with
  | Long1 l => Long1 (replicate (length l) 0)
  | Long2 l => Long2 (replicate (length l) (0, 0))
  | Float1 l => Float1 (replicate (length l) 0%R)
  | Float2 l => Float2 (replicate (length l) Vec3.zero)
  | Float3 l => Float3 (replicate (length l) Mat3.zero)
  end.
Definition ones_like (v : tvalue) : tvalue :=
  match v with
  | Long1 l => Long1 (replicate (length l) 1)
  | Long2 l => Long2 (replicate (length l) (1, 1))
  | Float1 l => Float1 (replicate (length l) 1%R)
  | Float2 l => Float2 (replicate (length l) (1, 1, 1)%R)
  | Float3 l => Float3 (replicate (length l) ((1, 1, 1), (1, 1, 1), (1, 1, 1))%R)
  end.
Definition scale (k : R) (v : tvalue) : tvalue :=
  match v with
  | Long1 l => Long1 l
  | Long2 l => Long2 l
  | Float1 l => Float1 (Rmult k <$> l)
  | Float2 l => Float2 (Vec3.scale k <$> l)
  | Float3 l => Float3 (Mat3.scale k <$> l)
  end.

End Torch.

(** ** Edge preparation ([compute_edge_data], basic.py lines 60-140) *)

(** Lines 69-79: a batch without [batch] is a single structure and gets
    [batch] and [ptr] filled in; otherwise it is a single structure when
    the largest structure index is zero. *)
Definition batch_info (data : dict) (pos : tvalue) : result (dict * bool) :=
  match data !! keys.BATCH with
  | None =>
      let n := Torch.shape0 pos in
      Ok (<[keys.BATCH_PTR := Tensor (Long1 [0; Z.of_nat n]) false]>
            (<[keys.BATCH := Tensor (Long1 (Torch.zeros_long n)) false]> data),
          true)
  | Some b =>
      bl ← Torch.as_long1 (tval b);
      m ← Torch.max bl;
      Ok (data, bool_decide (m = 0))
  end.

(** Line 101: [0.5 * (strain + strain.transpose(1, 2))]. *)
Definition symmetrize (strain : list mat3) : list mat3 :=
  Mat3.scale 0.5 <$> zip_with Mat3.add strain (Torch.transpose12 strain).

(** Lines 101-107, as a function of the strain: the deformed positions
    and the deformed cell. *)
Definition strain_deformation (strain : list mat3) (batch : list Z)
    (pos : list vec3) (has_cell : bool) (cell : list mat3)
  : result (list vec3 * list mat3) :=
  let symm_strain := symmetrize strain in
  expanded_strain ← Torch.index_select symm_strain batch;
  moved ← Torch.bmm_rows pos expanded_strain;
  pos' ← Torch.broadcast Vec3.add pos moved;
  cell' ← (if has_cell
           then moved_cell ← Torch.bmm cell symm_strain;
                Torch.broadcast Mat3.add cell moved_cell
           else Ok cell);
  Ok (pos', cell').

(** Lines 119-128: the periodic shift of every edge. *)
Definition periodic_shifts (single_graph : bool) (cell_offsets : list vec3)
    (cell : list mat3) (batch neighbor_idx : list Z) : result (list vec3) :=
  if single_graph then
    c ← Torch.squeeze0 cell;
    Ok (Torch.einsum_ni_ij cell_offsets c)
  else
    batch_neighbor ← Torch.index_select batch neighbor_idx;
    cell_batch ← Torch.index_select cell batch_neighbor;
    Torch.einsum_ni_nij cell_offsets cell_batch.

Definition compute_edge_data (data : dict) (compute_forces compute_virial : bool)
  : result dict :=
  pos_t ← getitem data keys.POSITIONS;
  edge_index_t ← getitem data keys.EDGE_INDEX;
  '(data, single_graph) ← batch_info data (tval pos_t);
  batch_t ← getitem data keys.BATCH;
  ptr_t ← getitem data keys.BATCH_PTR;
  let n_graphs := Z.of_nat (Torch.numel (tval ptr_t)) - 1 in
  let has_cell := bool_decide (is_Some (data !! keys.CELL)) in
  cell_t ← (if has_cell then getitem data keys.CELL
            else Ok (Tensor (Float3 []) false));
  (* pos.requires_grad_() flags the tensor the batch holds *)
  let pos_t := if compute_forces then Torch.requires_grad_ pos_t else pos_t in
  let data := if compute_forces then <[keys.POSITIONS := pos_t]> data else data in
  strain ← Torch.zeros3 n_graphs;
  pos ← Torch.as_float2 (tval pos_t);
  cell ← Torch.as_float3 (tval cell_t);
  batch ← Torch.as_long1 (tval batch_t);
  '(pos, cell, pos_grad, cell_grad) ←
    (if compute_virial then
       '(pos', cell') ← strain_deformation strain batch pos has_cell cell;
       Ok (pos', cell', true, requires_grad cell_t || has_cell)
     else Ok (pos, cell, requires_grad pos_t, requires_grad cell_t));
  edge_index ← Torch.as_long2 (tval edge_index_t);
  center_idx ← Torch.row keys.CENTER_IDX edge_index;
  neighbor_idx ← Torch.row keys.NEIGHBOR_IDX edge_index;
  at_center ← Torch.index_select pos center_idx;
  at_neighbor ← Torch.index_select pos neighbor_idx;
  vectors ← Torch.broadcast Vec3.sub at_center at_neighbor;
  '(vectors, vectors_grad) ←
    (if has_cell then
       offsets_t ← getitem data keys.CELL_OFFSETS;
       cell_offsets ← Torch.as_float2 (tval offsets_t);
       shifts ← periodic_shifts single_graph cell_offsets cell batch neighbor_idx;
       shifted ← Torch.broadcast Vec3.sub vectors shifts;
       Ok (shifted, pos_grad || requires_grad offsets_t || cell_grad)
     else Ok (vectors, pos_grad));
  let dist := Torch.norm vectors in
  Ok (<[keys.STRAIN := Tensor (Float3 strain) compute_virial]>
        (<[keys.EDGE_VECTOR := Tensor (Float2 vectors) vectors_grad]>
           (<[keys.EDGE_LENGTH := Tensor (Float1 dist) vectors_grad]> data))).

(** ** The autograd engine

    [torch.autograd.grad] runs one backward pass from an output tensor to
    the listed inputs.  The computation graph that the forward evaluation
    recorded is a parameter of the model.  For a graph [g], [g out inp]
    is the Jacobian of [out] with respect to [inp], one row per entry of
    [out] and each row of the shape of [inp], or [None] when no path of
    the graph leads from [out] to [inp]; [differentiable g out inp] tells
    whether the backward pass from [out] to [inp] uses a tensor that
    requires grad.  It does not when [out] is linear in [inp] with
    constant coefficients: the derivative is then a constant, and the
    engine returns it without a graph of its own whatever [create_graph]
    says. *)

Definition jacobian : Type := list tvalue.

Record graph := Graph {
  jacobian_of :> tensor -> tensor -> option jacobian;
  differentiable : tensor -> tensor -> bool
}.

(** One entry of the log per backward pass. *)
Record backward_call := BackwardCall {
  bc_inputs : nat;            (* number of differentiation inputs *)
  bc_retain_graph : bool;
  bc_create_graph : bool
}.
Definition engine : Type := list backward_call.

Definition M (A : Type) : Type := engine -> result (A * engine).

#[global] Instance M_ret : MRet M := fun A a st => Ok (a, st).
#[global] Instance M_bind : MBind M := fun A B f m st =>
  match m st with
  | Ok (a, st') => f a st'
  | Err e => Err e
  end.
Definition lift {A} (r : result A) : M A := fun st =>
  match r with Ok a => Ok (a, st) | Err e => Err e end.

Module Autograd.

Definition shape (v : tvalue) : list nat :=
  match v with
  | Long1 l => [length l]
  | Long2 l => [2%nat; length l]
  | Float1 l => [length l]
  | Float2 l => [length l; 3%nat]
  | Float3 l => [length l; 3%nat; 3%nat]
  end.

Definition flat3 (v : vec3) : list R := let '(x, y, z) := v in [x; y; z].
Definition flat9 (m : mat3) : list R :=
  let '(a, b, c) := m in flat3 a ++ flat3 b ++ flat3 c.
(** The entries in row-major order. *)
Definition flat (v : tvalue) : list R :=
  match v with
  | Long1 l => IZR <$> l
  | Long2 l => (IZR <$> l.*1) ++ (IZR <$> l.*2)
  | Float1 l => l
  | Float2 l => l ≫= flat3
  | Float3 l => l ≫= flat9
  end.

Definition zip_same {A} (f : A -> A -> A) (a b : list A) : result (list A) :=
  if decide (length a = length b) then Ok (zip_with f a b) else Err ShapeError.

(** Entrywise sum of two float tensors of one shape. *)
Definition add (a b : tvalue) : result tvalue :=
  match a, b with
  | Float1 x, Float1 y => Float1 <$> zip_same Rplus x y
  | Float2 x, Float2 y => Float2 <$> zip_same Vec3.add x y
  | Float3 x, Float3 y => Float3 <$> zip_same Mat3.add x y
  | _, _ => Err ShapeError
  end.

(** Vector-Jacobian product [sum_k w_k * J_k], from [zero]. *)
Fixpoint vjp (zero : tvalue) (w : list R) (J : jacobian) : result tvalue :=
  match w, J with
  | [], [] => Ok zero
  | k :: w', row :: J' => rest ← vjp zero w' J'; add (Torch.scale k row) rest
  | _, _ => Err ShapeError
  end.

(** The sum of the rows of a Jacobian: by linearity, the gradient of
    the sum of the entries of the output. *)
Fixpoint row_sum (zero : tvalue) (J : jacobian) : result tvalue :=
  match J with
  | [] => Ok zero
  | row :: J' => rest ← row_sum zero J'; add row rest
  end.

(** The gradient that one backward pass delivers for the input [inp]:
    [None] for an input the graph does not reach when [allow_unused] is
    set, an error for such an input otherwise.  The gradient requires
    grad when the pass is recorded ([create_graph]) and uses a tensor
    that requires grad; [grad_output] is a plain value and adds none. *)
Definition input_grad (g : graph) (output : tensor) (grad_output : tvalue)
    (create_graph allow_unused : bool) (inp : tensor)
  : result (option tensor) :=
  match jacobian_of g output inp with
  | None => if allow_unused then Ok None else Err UnusedInput
  | Some J =>
      v ← vjp (Torch.zeros_like (tval inp)) (flat grad_output) J;
      Ok (Some (Tensor v (create_graph && differentiable g output inp)))
  end.

(** [torch.autograd.grad(outputs=[output], inputs=inputs,
    grad_outputs=[grad_output], retain_graph=..., create_graph=...,
    allow_unused=...)].  The output and every input must require grad
    and [grad_output] must have the shape of the output. *)
Definition grad (g : graph) (output : tensor) (inputs : list tensor)
    (grad_output : tvalue) (retain_graph create_graph allow_unused : bool)
  : M (list (option tensor)) := fun st =>
  if negb (requires_grad output) then Err NoGradFn
  else if negb (forallb requires_grad inputs) then Err InputNoGrad
  else if negb (bool_decide (shape grad_output = shape (tval output)))
  then Err ShapeError
  else
    grads ← traverse (input_grad g output grad_output create_graph allow_unused)
              inputs;
    Ok (grads, BackwardCall (length inputs) retain_graph create_graph :: st).

End Autograd.

(** ** Forces and virial (basic.py lines 143-199) *)

(** [-1.0 * t]. *)
Definition negated (t : tensor) : tensor :=
  Tensor (Torch.scale (-1) (tval t)) (requires_grad t).

(** [torch.zeros_like(t)] as a fresh tensor. *)
Definition zeros_like (t : tensor) : tensor :=
  Tensor (Torch.zeros_like (tval t)) false.

Section PropertyEngine.

(** The graph recorded by the forward evaluation. *)
Variable g : graph.

Definition compute_forces_only (energy pos : tensor) (training : bool)
  : M tensor :=
  let grad_outputs := Torch.ones_like (tval energy) in
  grads ← Autograd.grad g energy [pos] grad_outputs training training false;
  match grads with
  | pos_grad :: _ =>
      let pos_grad := default (zeros_like pos) pos_grad in
      mret (negated pos_grad)
  | [] => lift (Err IndexError)
  end.

Definition compute_virial_only (energy strain : tensor) (training : bool)
  : M tensor :=
  let grad_outputs := Torch.ones_like (tval energy) in
  grads ← Autograd.grad g energy [strain] grad_outputs training training false;
  match grads with
  | strain_grad :: _ =>
      let strain_grad := default (zeros_like strain) strain_grad in
      mret (negated strain_grad)
  | [] => lift (Err IndexError)
  end.

Definition compute_forces_and_virial (energy pos strain : tensor)
    (training : bool) : M (tensor * tensor) :=
  let grad_outputs := Torch.ones_like (tval energy) in
  grads ← Autograd.grad g energy [pos; strain] grad_outputs training training false;
  match grads with
  | [pos_grad; strain_grad] =>
      let pos_grad := default (zeros_like pos) pos_grad in
      let strain_grad := default (zeros_like strain) strain_grad in
      mret (negated pos_grad, negated strain_grad)
  | _ => lift (Err ValueError)
  end.

End PropertyEngine.

(** ** Property derivation ([compute_properties], basic.py lines 202-238) *)

(** [{k: data[k] for k in ks}], as the items in order. *)
Definition items_of (data : dict) (ks : list string)
  : result (list (string * tensor)) :=
  traverse (fun k => t ← getitem data k; Ok (k, t)) ks.

(** [d.update(items)]: later items win. *)
Definition dict_update (d : dict) (items : list (string * tensor)) : dict :=
  foldl (fun m kv => <[kv.1 := kv.2]> m) d items.

Section Properties.

Variable g : graph.

Definition compute_properties (data : dict)
    (compute_forces compute_virial training : bool)
    (extra_properties : option (list string)) : M dict :=
  results ←
    (if compute_forces && compute_virial then
       energy ← lift (getitem data keys.TOTAL_ENERGY);
       pos ← lift (getitem data keys.POSITIONS);
       strain ← lift (getitem data keys.STRAIN);
       '(forces, virial) ← compute_forces_and_virial g energy pos strain training;
       mret (<[keys.VIRIAL := virial]> (<[keys.FORCES := forces]> (∅ : dict)))
     else if compute_forces then
       energy ← lift (getitem data keys.TOTAL_ENERGY);
       pos ← lift (getitem data keys.POSITIONS);
       forces ← compute_forces_only g energy pos training;
       mret (<[keys.FORCES := forces]> (∅ : dict))
     else if compute_virial then
       energy ← lift (getitem data keys.TOTAL_ENERGY);
       strain ← lift (getitem data keys.STRAIN);
       virial ← compute_virial_only g energy strain training;
       mret (<[keys.VIRIAL := virial]> (∅ : dict))
     else mret (∅ : dict));
  match extra_properties with
  | Some ks =>
      items ← lift (items_of data ks);
      mret (dict_update results items)
  | None => mret results
  end.

(** ** The composition shell ([BaseModel.forward], model.py lines 18-38)

    A learned stage consumes and returns the batch; it may raise. *)
Record BaseModel := {
  module_list : list (dict -> result dict);
  extra_properties : list string;
  training : bool
}.

(** [for module in self.module_list: data = module(data)]. *)
Fixpoint run_modules (modules : list (dict -> result dict)) (data : dict)
  : result dict :=
  match modules with
  | [] => Ok data
  | module :: rest => data' ← module data; run_modules rest data'
  end.

Definition forward (self : BaseModel) (data : dict)
    (compute_forces compute_virial : bool) : M dict :=
  data ← lift (compute_edge_data data compute_forces compute_virial);
  data ← lift (run_modules (module_list self) data);
  compute_properties data compute_forces compute_virial (training self)
    (Some (extra_properties self)).

End Properties.

(** ** The structure batch of the data model

    The typed content of a batch: positions, edges as (center, neighbor)
    pairs, the optional collation fields [batch] and [ptr], and the
    optional periodic fields [cell] and [cell_offsets]. *)

#[global] Instance R_inhabited : Inhabited R := populate 0%R.

Record structure_batch := StructureBatch {
  positions : list vec3;
  edge_index : list (Z * Z);
  collation : option (list Z * list Z);       (* batch, ptr *)
  periodic : option (list mat3 * list vec3)   (* cell, cell_offsets *)
}.

(** [t[i]] for an index in range. *)
Definition at_index {A} `{Inhabited A} (t : list A) (i : Z) : A :=
  t !!! Z.to_nat i.

Definition n_atoms (b : structure_batch) : Z := Z.of_nat (length (positions b)).

Definition n_structures (b : structure_batch) : Z :=
  match collation b with
  | None => 1
  | Some (_, ptr) => Z.of_nat (length ptr) - 1
  end.

(** The structure every atom belongs to. *)
Definition structure_index (b : structure_batch) : list Z :=
  match collation b with
  | None => replicate (length (positions b)) 0
  | Some (bt, _) => bt
  end.

(** The invariants of the data model that edge preparation relies on:
    edges join atoms of the batch, every atom belongs to one of the
    structures, the last structure is not empty, and a periodic batch has
    one cell per structure and one offset per edge. *)
Record well_formed (b : structure_batch) : Prop := WellFormed {
  wf_edges : Forall (fun e => (0 <= e.1 < n_atoms b) /\ (0 <= e.2 < n_atoms b))
               (edge_index b);
  wf_collation : match collation b with
                 | None => True
                 | Some (bt, ptr) =>
                     length bt = length (positions b) /\
                     Forall (fun s => 0 <= s < n_structures b) bt /\
                     (n_structures b - 1) ∈ bt
                 end;
  wf_periodic : match periodic b with
                | None => True
                | Some (cell, offsets) =>
                    Z.of_nat (length cell) = n_structures b /\
                    length offsets = length (edge_index b)
                end
}.

(** The batch [data] holds the value [v] under the key [k]. *)
Definition holds (data : dict) (k : string) (v : tvalue) : Prop :=
  tval <$> data !! k = Some v.

Definition represents (data : dict) (b : structure_batch) : Prop :=
  holds data keys.POSITIONS (Float2 (positions b)) /\
  holds data keys.EDGE_INDEX (Long2 (edge_index b)) /\
  match collation b with
  | None => data !! keys.BATCH = None
  | Some (bt, ptr) =>
      holds data keys.BATCH (Long1 bt) /\ holds data keys.BATCH_PTR (Long1 ptr)
  end /\
  match periodic b with
  | None => data !! keys.CELL = None
  | Some (cell, offsets) =>
      holds data keys.CELL (Float3 cell) /\
      holds data keys.CELL_OFFSETS (Float2 offsets)
  end.

(** The displacement of an edge as the specification words it:
    [positions[center] - positions[neighbor]]. *)
Definition displacement (pos : list vec3) (e : Z * Z) : vec3 :=
  Vec3.sub (at_index pos e.1) (at_index pos e.2).

(** The cell that shifts an edge whose neighbor is atom [n]: the single
    cell of a single structure, the cell of structure [batch[n]]
    otherwise. *)
Definition cell_of (b : structure_batch) (cell : list mat3) (n : Z) : mat3 :=
  if decide (n_structures b = 1) then at_index cell 0
  else at_index cell (at_index (structure_index b) n).

(** The edge vectors as the specification words them. *)
Definition edge_vectors (b : structure_batch) : list vec3 :=
  match periodic b with
  | None => displacement (positions b) <$> edge_index b
  | Some (cell, offsets) =>
      zip_with (fun e o => Vec3.sub (displacement (positions b) e)
                             (Mat3.vecmul o (cell_of b cell e.2)))
        (edge_index b) offsets
  end.

(** What edge preparation leaves in the batch [out], for the batch
    [data] that holds the structure batch [b]. *)
Record edge_prepared (data : dict) (b : structure_batch)
    (compute_forces compute_virial : bool) (out : dict) : Prop := EdgePrepared {
  ep_vector : holds out keys.EDGE_VECTOR (Float2 (edge_vectors b));
  ep_length : holds out keys.EDGE_LENGTH (Float1 (Vec3.norm <$> edge_vectors b));
  ep_strain : out !! keys.STRAIN
              = Some (Tensor (Float3 (replicate (Z.to_nat (n_structures b)) Mat3.zero))
                        compute_virial);
  ep_positions : holds out keys.POSITIONS (Float2 (positions b));
  ep_positions_grad : compute_forces = true ->
                      requires_grad <$> out !! keys.POSITIONS = Some true;
  ep_batch : holds out keys.BATCH (Long1 (structure_index b));
  ep_frame : forall k,
      k ∉ [keys.STRAIN; keys.EDGE_VECTOR; keys.EDGE_LENGTH; keys.BATCH;
           keys.BATCH_PTR; keys.POSITIONS] ->
      out !! k = data !! k
}.

(** The batch that holds exactly the fields of a structure batch. *)
Definition to_dict (b : structure_batch) : dict :=
  let d : dict :=
    <[keys.POSITIONS := Tensor (Float2 (positions b)) false]>
      (<[keys.EDGE_INDEX := Tensor (Long2 (edge_index b)) false]> ∅) in
  let d : dict :=
    match collation b with
    | None => d
    | Some (bt, ptr) =>
        <[keys.BATCH := Tensor (Long1 bt) false]>
          (<[keys.BATCH_PTR := Tensor (Long1 ptr) false]> d)
    end in
  match periodic b with
  | None => d
  | Some (cell, offsets) =>
      <[keys.CELL := Tensor (Float3 cell) false]>
        (<[keys.CELL_OFFSETS := Tensor (Float2 offsets) false]> d)
  end.

(** ** Sample batches *)

Definition identity3 : mat3 := ((1, 0, 0), (0, 1, 0), (0, 0, 1))%R.

(** Two atoms in one periodic cell, with a self-edge to the next image. *)
Definition periodic_pair : structure_batch :=
  {| positions := [(0, 0, 0); (1, 0, 0)]%R;
     edge_index := [(0, 1); (1, 0); (0, 0)];
     collation := None;
     periodic := Some ([identity3], [(0, 0, 0); (0, 0, 0); (1, 0, 0)]%R) |}.

(** Two periodic structures with different cells, collated. *)
Definition collated_pair : structure_batch :=
  {| positions := [(0, 0, 0); (1, 0, 0); (5, 5, 5)]%R;
     edge_index := [(0, 1); (1, 0); (2, 2)];
     collation := Some ([0; 0; 1], [0; 2; 3]);
     periodic := Some ([identity3; Mat3.scale 2 identity3],
                       [(0, 0, 0); (0, 0, 0); (0, 1, 0)]%R) |}.

(** An isolated atom in a periodic cell: no edges. *)
Definition isolated_atom : structure_batch :=
  {| positions := [(0, 0, 0)]%R;
     edge_index := [];
     collation := None;
     periodic := Some ([identity3], []) |}.


(** The cells of a batch; none when it is not periodic. *)
Definition cells (b : structure_batch) : list mat3 :=
  match periodic b with
  | Some (cell, _) => cell
  | None => []
  end.

Definition has_cell (b : structure_batch) : bool :=
  bool_decide (is_Some (periodic b)).

(** ** Moving an atom to a periodic image *)

(** An integer triple as a row of lattice coordinates. *)
Definition as_row (k : Z * Z * Z) : vec3 :=
  let '(k1, k2, k3) := k in (IZR k1, IZR k2, IZR k3).

(** The offset of the edge [e] once atom [a] has moved by [k] lattice
    vectors: [on_neighbor * k] is added where [a] is the neighbor of the
    edge and [on_center * k] where it is the center. *)
Definition adjust_offset (a : Z) (k : vec3) (on_neighbor on_center : R)
    (e : Z * Z) (o : vec3) : vec3 :=
  let o := if decide (e.2 = a) then Vec3.add o (Vec3.scale on_neighbor k) else o in
  if decide (e.1 = a) then Vec3.add o (Vec3.scale on_center k) else o.

(** The periodic structure [b] with atom [a] moved by the lattice
    combination [k . cell] and the offsets of its edges adjusted. *)
Definition translate_atom (b : structure_batch) (a : Z) (k : Z * Z * Z)
    (on_neighbor on_center : R) : structure_batch :=
  match periodic b with
  | Some (cell, offsets) =>
      {| positions :=
           <[Z.to_nat a := Vec3.add (at_index (positions b) a)
                             (Mat3.vecmul (as_row k) (at_index cell 0))]>
             (positions b);
         edge_index := edge_index b;
         collation := collation b;
         periodic :=
           Some (cell,
                 zip_with (adjust_offset a (as_row k) on_neighbor on_center)
                   (edge_index b) offsets) |}
  | None => b
  end.

(** ** Sample graphs and models *)

(** The energies of two structures, three atoms and two strains. *)
Definition sample_energy : tensor := Tensor (Float1 [-3; 2]%R) true.
Definition sample_pos : tensor :=
  Tensor (Float2 [(0, 0, 0); (1, 0, 0); (5, 5, 5)]%R) true.
Definition sample_strain : tensor :=
  Tensor (Float3 [Mat3.zero; Mat3.zero]) true.

(** A graph that reaches no input: an energy computed from quantities
    other than the geometry. *)
Definition disconnected : graph :=
  {| jacobian_of := fun _ _ => None; differentiable := fun _ _ => false |}.

(** A graph in which the two energies depend on positions and strain,
    linearly: the Jacobians are constants. *)
Definition sample_graph : graph :=
  {| jacobian_of := fun _ inp =>
       match tval inp with
       | Float2 _ =>
           Some [Float2 [(1, 0, 0); (-1, 0, 0); (0, 0, 0)]%R;
                 Float2 [(0, 0, 0); (0, 0, 0); (0, 2, 0)]%R]
       | Float3 _ =>
           Some [Float3 [identity3; Mat3.zero]; Float3 [Mat3.zero; identity3]]
       | _ => None
       end;
     differentiable := fun _ _ => false |}.

(** A learned stage that writes one energy per structure. *)
Definition energy_stage (data : dict) : result dict :=
  Ok (<[keys.TOTAL_ENERGY := sample_energy]> data).

(** A model that computes the energy and declares no extra property, and
    one that declares the energy. *)
Definition undeclared_energy_model : BaseModel :=
  {| module_list := [energy_stage]; extra_properties := []; training := true |}.
Definition declared_energy_model : BaseModel :=
  {| module_list := [energy_stage];
     extra_properties := [keys.TOTAL_ENERGY];
     training := true |}.

(** A batch after the learned stages: positions and energy. *)
Definition evaluated_batch : dict :=
  <[keys.TOTAL_ENERGY := sample_energy]>
    (<[keys.POSITIONS := sample_pos]> ∅).

(** ** Proof automation *)

Ltac split_rows :=
  repeat match goal with
         | v : vec3 |- _ => destruct v as [[? ?] ?]
         | m : mat3 |- _ => destruct m as [[? ?] ?]
         end.

Ltac rows_ring :=
  intros; split_rows;
  unfold Mat3.mul, Mat3.vecmul, Mat3.add, Mat3.scale, Mat3.transpose, Mat3.zero,
    Vec3.add, Vec3.sub, Vec3.scale, Vec3.zero;
  repeat (f_equal; try ring).

(** A key that differs from every key of a list is not in it. *)
Ltac not_listed :=
  let H := fresh in
  intros H;
  repeat (apply elem_of_cons in H as [H|H]; [try done; try congruence|]);
  by apply elem_of_nil in H.

(** One step of a computation in the error monad whose head has
    returned. *)
Ltac ok_step :=
  progress change (@mbind result _ ?A ?B ?f (Ok ?a)) with (f a);
  cbv beta iota zeta;
  cbn [tval requires_grad Torch.requires_grad_].

Ltac ok_steps :=
  repeat first
    [ ok_step
    | progress cbn [Torch.as_float2 Torch.as_float3 Torch.as_long1 Torch.as_long2]
    | progress (unfold keys.CENTER_IDX, keys.NEIGHBOR_IDX; cbn [Torch.row]) ].

(** ** Transformed batches *)

(** Every atom moved by the same vector [t]. *)
Definition translate_all (b : structure_batch) (t : vec3) : structure_batch :=
  {| positions := (fun p => Vec3.add p t) <$> positions b;
     edge_index := edge_index b;
     collation := collation b;
     periodic := periodic b |}.

(** Positions and cells expressed in another length unit: both scaled by
    [s]; the offsets count lattice vectors and stay. *)
Definition rescale (s : R) (b : structure_batch) : structure_batch :=
  {| positions := Vec3.scale s <$> positions b;
     edge_index := edge_index b;
     collation := collation b;
     periodic :=
       match periodic b with
       | Some (cell, offsets) => Some (Mat3.scale s <$> cell, offsets)
       | None => None
       end |}.

(** The structure batch with the collation fields as edge preparation
    leaves them: a batch that came without them is one structure. *)
Definition with_collation (b : structure_batch) : structure_batch :=
  {| positions := positions b;
     edge_index := edge_index b;
     collation :=
       Some (structure_index b,
             match collation b with
             | Some (_, ptr) => ptr
             | None => [0; Z.of_nat (length (positions b))]
             end);
     periodic := periodic b |}.

(** The [ptr] of a batch; a batch that came without collation fields is
    one structure of all its atoms. *)
Definition ptr_of (b : structure_batch) : list Z :=
  match collation b with
  | Some (_, ptr) => ptr
  | None => [0; n_atoms b]
  end.

(** Two batches laid out as one: the atoms, edges, cells and offsets of
    the second follow those of the first, with the atom indices of its
    edges and its structure indices counted on. *)
Definition join_batches (b1 b2 : structure_batch) : structure_batch :=
  {| positions := (positions b1 ++ positions b2)%list;
     edge_index :=
       (edge_index b1
        ++ ((fun e => (e.1 + n_atoms b1, e.2 + n_atoms b1)) <$> edge_index b2))%list;
     collation :=
       Some ((structure_index b1
              ++ ((fun s => s + n_structures b1) <$> structure_index b2))%list,
             (ptr_of b1
              ++ ((fun p => p + n_atoms b1) <$> tail (ptr_of b2)))%list);
     periodic :=
       match periodic b1, periodic b2 with
       | Some (cell1, offsets1), Some (cell2, offsets2) =>
           Some ((cell1 ++ cell2)%list, (offsets1 ++ offsets2)%list)
       | _, _ => None
       end |}.

(** * Properties *)

(** ** The error monad and the torch primitives *)

Lemma getitem_Some (data : dict) k t : data !! k = Some t -> getitem data k = Ok t.
Proof. unfold getitem. by intros ->. Qed.


Lemma holds_lookup (data : dict) k v :
  holds data k v -> exists rg, data !! k = Some (Tensor v rg).
Proof.
  unfold holds. destruct (data !! k) as [[v' rg]|]; simpl; [|done].
  intros [= ->]. by exists rg.
Qed.

Lemma traverse_Ok {A B} (f : A -> result B) (h : A -> B) l :
  Forall (fun x => f x = Ok (h x)) l -> traverse f l = Ok (h <$> l).
Proof.
  induction 1 as [|x l Hx _ IH]; simpl; [done|]. by rewrite Hx, IH.
Qed.

Lemma at_index_lookup {A} `{Inhabited A} (t : list A) i :
  0 <= i < Z.of_nat (length t) -> t !! Z.to_nat i = Some (at_index t i).
Proof.
  intros Hi. unfold at_index. apply list_lookup_lookup_total_lt. lia.
Qed.

Lemma index_select_Ok {A} `{Inhabited A} (t : list A) index :
  Forall (fun i => 0 <= i < Z.of_nat (length t)) index ->
  Torch.index_select t index = Ok (at_index t <$> index).
Proof.
  intros Hall. unfold Torch.index_select. apply traverse_Ok.
  eapply Forall_impl; [exact Hall|]. intros i Hi. simpl in *.
  destruct (decide (0 <= i)); [|lia]. by rewrite at_index_lookup.
Qed.


Lemma broadcast_same {A B C} (f : A -> B -> C) a b :
  length a = length b -> Torch.broadcast f a b = Ok (zip_with f a b).
Proof. intros Hlen. unfold Torch.broadcast. by destruct (decide _). Qed.

(** ** Algebra of rows and matrices *)



Lemma vec_add_zero v : Vec3.add v Vec3.zero = v.
Proof. rows_ring. Qed.

Lemma vecmul_zero v : Mat3.vecmul v Mat3.zero = Vec3.zero.
Proof. rows_ring. Qed.

Lemma mat_add_zero m : Mat3.add m Mat3.zero = m.
Proof. rows_ring. Qed.

Lemma mat_mul_zero m : Mat3.mul m Mat3.zero = Mat3.zero.
Proof. rows_ring. Qed.

Lemma symmetrize_zero_entry :
  Mat3.scale 0.5 (Mat3.add Mat3.zero (Mat3.transpose Mat3.zero)) = Mat3.zero.
Proof. rows_ring. Qed.

Lemma fmap_id_on {A} (f : A -> A) (l : list A) :
  (forall x, f x = x) -> f <$> l = l.
Proof. intros Hf. induction l as [|x l IH]; csimpl; [done|]. by rewrite Hf, IH. Qed.

(** ** The strain transform at zero strain *)

Lemma symmetrize_zero n :
  symmetrize (replicate n Mat3.zero) = replicate n Mat3.zero.
Proof.
  unfold symmetrize, Torch.transpose12.
  rewrite fmap_replicate, zip_with_replicate, fmap_replicate.
  by rewrite symmetrize_zero_entry.
Qed.

Lemma index_select_replicate {A} `{Inhabited A} n (x : A) index :
  Forall (fun i => 0 <= i < Z.of_nat n) index ->
  Torch.index_select (replicate n x) index = Ok (replicate (length index) x).
Proof.
  intros Hall. rewrite index_select_Ok by (by rewrite length_replicate).
  f_equal. induction Hall as [|i index Hi _ IH]; simpl; [done|].
  f_equal; [|done]. unfold at_index. apply lookup_total_replicate_2. lia.
Qed.

Lemma strain_deformation_zero n batch pos has_cell cell :
  length batch = length pos ->
  Forall (fun s => 0 <= s < Z.of_nat n) batch ->
  (has_cell = true -> length cell = n) ->
  strain_deformation (replicate n Mat3.zero) batch pos has_cell cell
  = Ok (pos, cell).
Proof.
  intros Hlen Hall Hcell. unfold strain_deformation.
  rewrite symmetrize_zero, index_select_replicate by done. simpl.
  unfold Torch.bmm_rows. rewrite length_replicate.
  destruct (decide (length pos = length batch)); [|congruence]. simpl.
  rewrite zip_with_replicate_r_eq by done.
  rewrite (const_fmap _ _ Vec3.zero) by (intros; apply vecmul_zero).
  rewrite broadcast_same by (by rewrite length_replicate). simpl.
  rewrite zip_with_replicate_r_eq by done.
  rewrite (fmap_id_on (flip Vec3.add Vec3.zero)) by (intros; apply vec_add_zero).
  destruct has_cell; [|done].
  unfold Torch.bmm. rewrite length_replicate.
  destruct (decide (length cell = n)); [|by specialize (Hcell eq_refl)]. simpl.
  rewrite zip_with_replicate_r_eq by done.
  rewrite (const_fmap _ _ Mat3.zero) by (intros; apply mat_mul_zero).
  rewrite broadcast_same by (by rewrite length_replicate). simpl.
  rewrite zip_with_replicate_r_eq by done.
  by rewrite (fmap_id_on (flip Mat3.add Mat3.zero)) by (intros; apply mat_add_zero).
Qed.

(** ** Edge preparation on a well-formed batch *)

Lemma foldr_max_ge x l z : z ∈ x :: l -> z <= foldr Z.max x l.
Proof.
  induction l as [|y l IH]; simpl.
  - intros ->%list_elem_of_singleton. lia.
  - intros Hz. apply elem_of_cons in Hz as [->|Hz].
    + specialize (IH ltac:(left)). lia.
    + apply elem_of_cons in Hz as [->|Hz]; [lia|].
      specialize (IH ltac:(by right)). lia.
Qed.

Lemma foldr_max_le x l u : Forall (fun z => z <= u) (x :: l) -> foldr Z.max x l <= u.
Proof.
  intros Hall. apply Forall_cons in Hall as [Hx Hl].
  induction Hl as [|y l Hy _ IH]; simpl; lia.
Qed.

Lemma max_of_structures bt n :
  Forall (fun s => 0 <= s < n) bt -> (n - 1) ∈ bt -> Torch.max bt = Ok (n - 1).
Proof.
  intros Hall Hin. destruct bt as [|x l]; [by apply elem_of_nil in Hin|].
  simpl. f_equal. apply Z.le_antisymm.
  - apply foldr_max_le. eapply Forall_impl; [exact Hall|]. simpl. lia.
  - by apply foldr_max_ge.
Qed.

Lemma batch_info_spec data b :
  represents data b -> well_formed b ->
  exists data' ptr_t,
    batch_info data (Float2 (positions b))
      = Ok (data', bool_decide (n_structures b = 1)) /\
    holds data' keys.BATCH (Long1 (structure_index b)) /\
    data' !! keys.BATCH_PTR = Some ptr_t /\
    Z.of_nat (Torch.numel (tval ptr_t)) - 1 = n_structures b /\
    (forall k, k <> keys.BATCH -> k <> keys.BATCH_PTR -> data' !! k = data !! k).
Proof.
  intros (Hpos & Hedge & Hcol & Hper) [Hwe Hwc Hwp].
  unfold batch_info, n_structures, structure_index in *.
  destruct (collation b) as [[bt ptr]|].
  - destruct Hcol as [Hbt Hptr]. destruct Hwc as (Hlen & Hall & Hlast).
    apply holds_lookup in Hbt as Hbt'. destruct Hbt' as [rg Hbt'].
    apply holds_lookup in Hptr as [rg' Hptr].
    exists data, (Tensor (Long1 ptr) rg'). rewrite Hbt'. simpl.
    rewrite (max_of_structures _ _ Hall Hlast). simpl.
    split_and!; try done.
    do 2 f_equal. apply bool_decide_ext. lia.
  - rewrite Hcol. eexists _, _. split_and!.
    + done.
    + unfold holds. rewrite lookup_insert_ne by done. by rewrite lookup_insert_eq.
    + by rewrite lookup_insert_eq.
    + done.
    + intros k Hk1 Hk2. by rewrite !lookup_insert_ne.
Qed.



Lemma zip_with_cons {A B C} (f : A -> B -> C) x y l k :
  zip_with f (x :: l) (y :: k) = f x y :: zip_with f l k.
Proof. done. Qed.

Lemma displacement_zip (pos : list vec3) (edges : list (Z * Z)) :
  zip_with Vec3.sub (at_index pos <$> edges.*1) (at_index pos <$> edges.*2)
  = displacement pos <$> edges.
Proof.
  induction edges as [|[c n] edges IH]; [done|].
  rewrite !fmap_cons, !zip_with_cons, ?fmap_cons, ?zip_with_cons. by rewrite IH.
Qed.

Lemma shifted_single (d : Z * Z -> vec3) m (edges : list (Z * Z)) offsets :
  zip_with Vec3.sub (d <$> edges) (Torch.einsum_ni_ij offsets m)
  = zip_with (fun e o => Vec3.sub (d e) (Mat3.vecmul o m)) edges offsets.
Proof.
  unfold Torch.einsum_ni_ij. revert offsets.
  induction edges as [|e edges IH]; intros [|o offsets]; try done.
  rewrite !fmap_cons, !zip_with_cons, ?fmap_cons, ?zip_with_cons. by rewrite IH.
Qed.

Lemma shifted_batched (d : Z * Z -> vec3) (c : Z -> mat3) (edges : list (Z * Z)) offsets :
  zip_with Vec3.sub (d <$> edges) (zip_with Mat3.vecmul offsets (c <$> edges.*2))
  = zip_with (fun e o => Vec3.sub (d e) (Mat3.vecmul o (c e.2))) edges offsets.
Proof.
  revert offsets.
  induction edges as [|e edges IH]; intros [|o offsets]; try done.
  rewrite !fmap_cons, !zip_with_cons, ?fmap_cons, ?zip_with_cons. by rewrite IH.
Qed.

Lemma n_structures_pos b : well_formed b -> 1 <= n_structures b.
Proof.
  intros [_ Hwc _]. unfold n_structures in *.
  destruct (collation b) as [[bt ptr]|]; [|lia].
  destruct Hwc as (_ & Hall & Hlast).
  rewrite Forall_forall in Hall. specialize (Hall _ Hlast). simpl in Hall. lia.
Qed.

Lemma structure_index_length b :
  well_formed b -> length (structure_index b) = length (positions b).
Proof.
  intros [_ Hwc _]. unfold structure_index.
  destruct (collation b) as [[bt ptr]|]; [by destruct Hwc|].
  by rewrite length_replicate.
Qed.

Lemma structure_index_range b :
  well_formed b ->
  Forall (fun s => 0 <= s < n_structures b) (structure_index b).
Proof.
  intros [_ Hwc _]. unfold structure_index, n_structures in *.
  destruct (collation b) as [[bt ptr]|]; [by destruct Hwc as (_ & ? & _)|].
  apply Forall_replicate. lia.
Qed.

Lemma lift_index_range n (l : list Z) :
  Forall (fun s => 0 <= s < n) l ->
  Forall (fun s => 0 <= s < Z.of_nat (Z.to_nat n)) l.
Proof. intros H. eapply Forall_impl; [exact H|]. simpl. lia. Qed.

Lemma centers_in_range b :
  well_formed b ->
  Forall (fun i => 0 <= i < Z.of_nat (length (positions b))) (edge_index b).*1.
Proof.
  intros [Hwe _ _]. apply Forall_fmap.
  eapply Forall_impl; [exact Hwe|]. intros e [H _]. exact H.
Qed.

Lemma neighbors_in_range b :
  well_formed b ->
  Forall (fun i => 0 <= i < Z.of_nat (length (positions b))) (edge_index b).*2.
Proof.
  intros [Hwe _ _]. apply Forall_fmap.
  eapply Forall_impl; [exact Hwe|]. intros e [_ H]. exact H.
Qed.

Lemma structure_of_atom b n :
  well_formed b -> 0 <= n < Z.of_nat (length (positions b)) ->
  0 <= at_index (structure_index b) n < n_structures b.
Proof.
  intros Hwf Hn.
  pose proof (structure_index_range _ Hwf) as Hall.
  rewrite Forall_forall in Hall. apply Hall.
  apply list_elem_of_lookup. exists (Z.to_nat n).
  apply at_index_lookup. by rewrite structure_index_length.
Qed.

Lemma periodic_shifts_spec b cell offsets :
  well_formed b -> periodic b = Some (cell, offsets) ->
  exists shifts,
    periodic_shifts (bool_decide (n_structures b = 1)) offsets cell
      (structure_index b) (edge_index b).*2 = Ok shifts /\
    Torch.broadcast Vec3.sub (displacement (positions b) <$> edge_index b) shifts
    = Ok (edge_vectors b).
Proof.
  intros Hwf Eper. pose proof (wf_periodic _ Hwf) as Hwp.
  rewrite Eper in Hwp. destruct Hwp as [Hclen Holen].
  unfold periodic_shifts, edge_vectors. rewrite Eper.
  destruct (decide (n_structures b = 1)) as [Hone|Hmany].
  - rewrite bool_decide_eq_true_2 by done.
    destruct cell as [|m [|]]; simpl in Hclen; try lia.
    eexists. split; [done|].
    rewrite broadcast_same
      by (unfold Torch.einsum_ni_ij; by rewrite !length_fmap).
    rewrite shifted_single. f_equal. apply zip_with_ext; [|done..].
    intros e o. unfold cell_of. by destruct (decide _).
  - rewrite bool_decide_eq_false_2 by done.
    rewrite index_select_Ok
      by (rewrite structure_index_length by done; by apply neighbors_in_range).
    ok_step.
    rewrite index_select_Ok.
    2:{ apply Forall_fmap. eapply Forall_impl; [by apply neighbors_in_range|].
        intros n Hn. simpl. rewrite Hclen. by apply structure_of_atom. }
    ok_step. unfold Torch.einsum_ni_nij.
    rewrite broadcast_same by (by rewrite !length_fmap).
    eexists. split; [done|].
    rewrite broadcast_same by (by rewrite length_zip_with, !length_fmap; lia).
    rewrite <- list_fmap_compose, shifted_batched. f_equal.
    apply zip_with_ext; [|done..].
    intros e o. unfold cell_of. by destruct (decide _).
Qed.


Lemma compute_edge_data_spec data b compute_forces compute_virial :
  represents data b -> well_formed b ->
  exists out,
    compute_edge_data data compute_forces compute_virial = Ok out /\
    edge_prepared data b compute_forces compute_virial out.
Proof.
  intros Hrep Hwf.
  destruct (batch_info_spec _ _ Hrep Hwf)
    as (data' & ptr_t & Hinfo & Hbatch & Hptr & Hnum & Hframe).
  pose proof (n_structures_pos _ Hwf) as Hn.
  pose proof (structure_index_length _ Hwf) as Hblen.
  pose proof (lift_index_range _ _ (structure_index_range _ Hwf)) as Hbrange.
  pose proof (centers_in_range _ Hwf) as Hcenters.
  pose proof (neighbors_in_range _ Hwf) as Hneighbors.
  destruct Hrep as (Hpos & Hedge & Hcol & Hper).
  pose proof (wf_periodic _ Hwf) as Hwp.
  pose proof (periodic_shifts_spec b) as Hshifts.
  specialize (fun c o => Hshifts c o Hwf).
  apply holds_lookup in Hpos as [rgp Hpos].
  apply holds_lookup in Hedge as [rge Hedge].
  apply holds_lookup in Hbatch as [rgb Hbatch].
  assert (Hz : Torch.zeros3 (n_structures b)
               = Ok (replicate (Z.to_nat (n_structures b)) Mat3.zero)).
  { unfold Torch.zeros3. destruct (decide _); [lia|done]. }
  set (strain := replicate (Z.to_nat (n_structures b)) Mat3.zero) in *.
  unfold compute_edge_data.
  rewrite (getitem_Some _ _ _ Hpos). ok_step.
  rewrite (getitem_Some _ _ _ Hedge). ok_step.
  rewrite Hinfo. ok_step.
  rewrite (getitem_Some _ _ _ Hbatch). ok_step.
  rewrite (getitem_Some _ _ _ Hptr). ok_step.
  rewrite Hnum, Hz, (Hframe keys.CELL) by done.
  set (pos_t := if compute_forces then _ else Tensor _ _).
  assert (Hpt : tval pos_t = Float2 (positions b))
    by (by subst pos_t; destruct compute_forces).
  set (data'' := if compute_forces then _ else data').
  assert (Hframe' : forall k, k <> keys.BATCH -> k <> keys.BATCH_PTR ->
                      k <> keys.POSITIONS -> data'' !! k = data !! k).
  { intros k H1 H2 H3. subst data''. destruct compute_forces.
    - rewrite lookup_insert_ne by done. by apply Hframe.
    - by apply Hframe. }
  assert (Hpos'' : data'' !! keys.POSITIONS = Some pos_t).
  { subst data'' pos_t. destruct compute_forces.
    - by rewrite lookup_insert_eq.
    - rewrite Hframe by done. exact Hpos. }
  assert (Hbatch'' : data'' !! keys.BATCH
                     = Some (Tensor (Long1 (structure_index b)) rgb)).
  { subst data''. destruct compute_forces; [|done].
    by rewrite lookup_insert_ne. }
  clearbody data''.
  rewrite Hpt.
  assert (Hfinal : forall rg,
    edge_prepared data b compute_forces compute_virial
      (<[keys.STRAIN := Tensor (Float3 strain) compute_virial]>
         (<[keys.EDGE_VECTOR := Tensor (Float2 (edge_vectors b)) rg]>
            (<[keys.EDGE_LENGTH := Tensor (Float1 (Torch.norm (edge_vectors b))) rg]>
               data'')))).
  { intros rg. split; unfold holds.
    - rewrite lookup_insert_ne by done. by rewrite lookup_insert_eq.
    - do 2 rewrite lookup_insert_ne by done. by rewrite lookup_insert_eq.
    - by rewrite lookup_insert_eq.
    - do 3 rewrite lookup_insert_ne by done. rewrite Hpos''. simpl. by rewrite Hpt.
    - intros ->. do 3 rewrite lookup_insert_ne by done.
      rewrite Hpos''. by subst pos_t.
    - do 3 rewrite lookup_insert_ne by done. by rewrite Hbatch''.
    - intros k Hk. do 3 rewrite lookup_insert_ne by set_solver.
      apply Hframe'; set_solver. }
  destruct (periodic b) as [[cell offsets]|] eqn:Eper.
  - destruct Hper as [Hcell Hoff]. destruct Hwp as [Hclen Holen].
    apply holds_lookup in Hcell as [rgc Hcell].
    apply holds_lookup in Hoff as [rgo Hoff].
    destruct (Hshifts _ _ eq_refl) as (shifts & Hsh & Hsub).
    rewrite Hcell. rewrite bool_decide_eq_true_2 by done.
    rewrite (getitem_Some data' keys.CELL _)
      by (by rewrite Hframe by done).
    rewrite (getitem_Some data'' keys.CELL_OFFSETS _)
      by (by rewrite Hframe' by done).
    ok_steps.
    assert (Hdef : strain_deformation strain (structure_index b) (positions b)
                     true cell = Ok (positions b, cell)).
    { apply strain_deformation_zero; [done..|]. intros _. lia. }
    destruct compute_virial; rewrite ?Hdef; ok_steps.
    all: rewrite !index_select_Ok by done; ok_steps.
    all: rewrite broadcast_same by (by rewrite !length_fmap); ok_steps.
    all: rewrite displacement_zip, Hsh; ok_steps.
    all: rewrite Hsub; ok_steps.
    all: eexists; split; [reflexivity|apply Hfinal].
  - rewrite Hper. rewrite bool_decide_eq_false_2 by (by intros [? ?]).
    ok_steps.
    assert (Hdef : strain_deformation strain (structure_index b) (positions b)
                     false [] = Ok (positions b, [])).
    { apply strain_deformation_zero; [done..|]. done. }
    destruct compute_virial; rewrite ?Hdef; ok_steps.
    all: rewrite !index_select_Ok by done; ok_steps.
    all: rewrite broadcast_same by (by rewrite !length_fmap); ok_steps.
    all: rewrite displacement_zip.
    all: eexists; split; [reflexivity|].
    all: unfold edge_vectors in Hfinal; rewrite Eper in Hfinal; apply Hfinal.
Qed.

Lemma represents_to_dict b : represents (to_dict b) b.
Proof.
  unfold represents, to_dict, holds.
  destruct (collation b) as [[bt ptr]|], (periodic b) as [[cell offsets]|].
  all: split_and!;
    repeat first [ rewrite lookup_insert_eq | rewrite lookup_insert_ne by done ];
    done.
Qed.

Lemma well_formed_periodic_pair : well_formed periodic_pair.
Proof.
  split; simpl; [|done|done].
  unfold n_atoms. simpl. repeat constructor; simpl; lia.
Qed.

Lemma well_formed_collated_pair : well_formed collated_pair.
Proof.
  split; simpl.
  - unfold n_atoms. simpl. repeat constructor; simpl; lia.
  - unfold n_structures. simpl. split_and!; [done| |set_solver].
    repeat constructor; lia.
  - done.
Qed.

Lemma well_formed_isolated_atom : well_formed isolated_atom.
Proof. split; simpl; [constructor|done|done]. Qed.

(** ** Claims about edge preparation *)

Lemma edge_vectors_lookup b e c n :
  well_formed b -> edge_index b !! e = Some (c, n) ->
  exists v, edge_vectors b !! e = Some v /\
    let base := Vec3.sub (at_index (positions b) c) (at_index (positions b) n) in
    match periodic b with
    | None => v = base
    | Some (cell, offsets) =>
        exists o, offsets !! e = Some o /\
          v = Vec3.sub base (Mat3.vecmul o (cell_of b cell n))
    end.
Proof.
  intros Hwf He. pose proof (wf_periodic _ Hwf) as Hwp.
  unfold edge_vectors. destruct (periodic b) as [[cell offsets]|].
  - destruct Hwp as [_ Holen].
    destruct (lookup_lt_is_Some_2 offsets e) as [o Ho].
    { rewrite Holen. by eapply lookup_lt_Some. }
    eexists. split.
    + rewrite lookup_zip_with, He. simpl. by rewrite Ho.
    + by exists o.
  - eexists. split; [|done]. by rewrite list_lookup_fmap, He.
Qed.

(** C3: every edge (center, neighbor) gets the vector
    [positions[center] - positions[neighbor]] and its Euclidean norm as
    length; with a cell, a single structure subtracts
    [cell_offsets . cell] for its one cell, and a batch of several
    structures subtracts [cell_offsets . cell[batch[neighbor]]]. *)
Theorem edge_vector_of_every_edge data b compute_forces compute_virial e c n :
  represents data b -> well_formed b ->
  edge_index b !! e = Some (c, n) ->
  exists out vectors lengths v,
    compute_edge_data data compute_forces compute_virial = Ok out /\
    holds out keys.EDGE_VECTOR (Float2 vectors) /\
    holds out keys.EDGE_LENGTH (Float1 lengths) /\
    vectors !! e = Some v /\
    lengths !! e = Some (sqrt (Vec3.dot v v)) /\
    let base := Vec3.sub (at_index (positions b) c) (at_index (positions b) n) in
    match periodic b with
    | None => v = base
    | Some (cell, offsets) =>
        exists o, offsets !! e = Some o /\
          (n_structures b = 1 ->
           v = Vec3.sub base (Mat3.vecmul o (at_index cell 0))) /\
          (n_structures b <> 1 ->
           v = Vec3.sub base
                 (Mat3.vecmul o (at_index cell (at_index (structure_index b) n))))
    end.
Proof.
  intros Hrep Hwf He.
  destruct (compute_edge_data_spec _ _ compute_forces compute_virial Hrep Hwf)
    as (out & Hout & Hprep).
  destruct (edge_vectors_lookup _ _ _ _ Hwf He) as (v & Hv & Hform).
  exists out, (edge_vectors b), (Vec3.norm <$> edge_vectors b), v.
  split_and!; [done|apply Hprep..|done| |].
  - by rewrite list_lookup_fmap, Hv.
  - simpl in *. destruct (periodic b) as [[cell offsets]|]; [|done].
    destruct Hform as (o & Ho & ->). exists o. split; [done|].
    unfold cell_of. split; intros Hs; by destruct (decide _).
Qed.

Lemma edge_vector_of_every_edge_witness :
  represents (to_dict collated_pair) collated_pair /\
  well_formed collated_pair /\
  exists out vectors lengths v,
    compute_edge_data (to_dict collated_pair) true true = Ok out /\
    holds out keys.EDGE_VECTOR (Float2 vectors) /\
    holds out keys.EDGE_LENGTH (Float1 lengths) /\
    vectors !! 2%nat = Some v /\
    lengths !! 2%nat = Some (sqrt (Vec3.dot v v)) /\
    exists o, [(0, 0, 0); (0, 0, 0); (0, 1, 0)]%R !! 2%nat = Some o /\
      (n_structures collated_pair = 1 ->
       v = Vec3.sub (Vec3.sub (5, 5, 5)%R (5, 5, 5)%R)
             (Mat3.vecmul o identity3)) /\
      (n_structures collated_pair <> 1 ->
       v = Vec3.sub (Vec3.sub (5, 5, 5)%R (5, 5, 5)%R)
             (Mat3.vecmul o (Mat3.scale 2 identity3))).
Proof.
  split; [apply represents_to_dict|].
  split; [apply well_formed_collated_pair|].
  apply (edge_vector_of_every_edge (to_dict collated_pair) collated_pair
           true true 2%nat 2 2).
  - apply represents_to_dict.
  - apply well_formed_collated_pair.
  - reflexivity.
Defined.

(** C9: a batch without edges is prepared without error, with or without
    a cell, and gets empty [edge_length] and [edge_vector] tensors. *)
Theorem zero_edges_are_safe data b compute_forces compute_virial :
  represents data b -> well_formed b -> edge_index b = [] ->
  exists out,
    compute_edge_data data compute_forces compute_virial = Ok out /\
    holds out keys.EDGE_LENGTH (Float1 []) /\
    holds out keys.EDGE_VECTOR (Float2 []).
Proof.
  intros Hrep Hwf Hnil.
  destruct (compute_edge_data_spec _ _ compute_forces compute_virial Hrep Hwf)
    as (out & Hout & Hprep).
  assert (Hvec : edge_vectors b = []).
  { unfold edge_vectors. rewrite Hnil.
    by destruct (periodic b) as [[cell offsets]|]. }
  exists out. split; [done|].
  pose proof (ep_length _ _ _ _ _ Hprep) as Hl.
  pose proof (ep_vector _ _ _ _ _ Hprep) as Hv.
  rewrite Hvec in Hl, Hv. by split.
Qed.

Lemma zero_edges_are_safe_witness :
  represents (to_dict isolated_atom) isolated_atom /\
  well_formed isolated_atom /\
  edge_index isolated_atom = [] /\
  exists out,
    compute_edge_data (to_dict isolated_atom) true true = Ok out /\
    holds out keys.EDGE_LENGTH (Float1 []) /\
    holds out keys.EDGE_VECTOR (Float2 []).
Proof.
  split; [apply represents_to_dict|].
  split; [apply well_formed_isolated_atom|].
  split; [reflexivity|].
  apply (zero_edges_are_safe (to_dict isolated_atom) isolated_atom true true).
  - apply represents_to_dict.
  - apply well_formed_isolated_atom.
  - reflexivity.
Defined.

(** ** Claims about the strain transform *)



Lemma cells_length b :
  well_formed b -> has_cell b = true ->
  length (cells b) = Z.to_nat (n_structures b).
Proof.
  intros Hwf Hc. pose proof (wf_periodic _ Hwf) as Hwp.
  unfold cells, has_cell in *.
  destruct (periodic b) as [[cell offsets]|]; [lia|].
  apply bool_decide_eq_true in Hc. by destruct Hc.
Qed.



(** C4: edge preparation without the virial leaves positions and cell as
    they are and yields the same [edge_vector], [edge_length], positions
    and cell values as edge preparation with the virial, whose strain is
    zero: the strain transform at zero strain is the identity. *)
Theorem strain_identity data b compute_forces :
  represents data b -> well_formed b ->
  exists off on,
    compute_edge_data data compute_forces false = Ok off /\
    compute_edge_data data compute_forces true = Ok on /\
    tval <$> off !! keys.POSITIONS = tval <$> data !! keys.POSITIONS /\
    off !! keys.CELL = data !! keys.CELL /\
    (forall k,
        k ∈ [keys.EDGE_VECTOR; keys.EDGE_LENGTH; keys.POSITIONS; keys.CELL] ->
        tval <$> on !! k = tval <$> off !! k) /\
    strain_deformation (replicate (Z.to_nat (n_structures b)) Mat3.zero)
      (structure_index b) (positions b) (has_cell b) (cells b)
    = Ok (positions b, cells b).
Proof.
  intros Hrep Hwf.
  destruct (compute_edge_data_spec _ _ compute_forces false Hrep Hwf)
    as (off & Hoff & Poff).
  destruct (compute_edge_data_spec _ _ compute_forces true Hrep Hwf)
    as (on & Hon & Pon).
  assert (Hcell : forall out, edge_prepared data b compute_forces false out \/
                              edge_prepared data b compute_forces true out ->
                              out !! keys.CELL = data !! keys.CELL).
  { intros out [P|P]; apply P; not_listed. }
  exists off, on. split_and!; [done|done| | | |].
  - destruct Hrep as (Hpos & _). unfold holds in Hpos. rewrite Hpos.
    apply Poff.
  - apply Hcell. by left.
  - intros k Hk. repeat (apply elem_of_cons in Hk as [->|Hk]).
    + pose proof (ep_vector _ _ _ _ _ Poff) as H1.
      pose proof (ep_vector _ _ _ _ _ Pon) as H2.
      unfold holds in *. by rewrite H1, H2.
    + pose proof (ep_length _ _ _ _ _ Poff) as H1.
      pose proof (ep_length _ _ _ _ _ Pon) as H2.
      unfold holds in *. by rewrite H1, H2.
    + pose proof (ep_positions _ _ _ _ _ Poff) as H1.
      pose proof (ep_positions _ _ _ _ _ Pon) as H2.
      unfold holds in *. by rewrite H1, H2.
    + rewrite (Hcell on) by (by right). rewrite (Hcell off) by (by left). done.
    + by apply elem_of_nil in Hk.
  - apply strain_deformation_zero.
    + by apply structure_index_length.
    + apply lift_index_range. by apply structure_index_range.
    + by apply cells_length.
Qed.

Lemma strain_identity_witness :
  represents (to_dict periodic_pair) periodic_pair /\
  well_formed periodic_pair /\
  exists off on,
    compute_edge_data (to_dict periodic_pair) true false = Ok off /\
    compute_edge_data (to_dict periodic_pair) true true = Ok on /\
    tval <$> off !! keys.POSITIONS
      = tval <$> to_dict periodic_pair !! keys.POSITIONS /\
    off !! keys.CELL = to_dict periodic_pair !! keys.CELL /\
    (forall k,
        k ∈ [keys.EDGE_VECTOR; keys.EDGE_LENGTH; keys.POSITIONS; keys.CELL] ->
        tval <$> on !! k = tval <$> off !! k) /\
    strain_deformation (replicate (Z.to_nat (n_structures periodic_pair)) Mat3.zero)
      (structure_index periodic_pair) (positions periodic_pair)
      (has_cell periodic_pair) (cells periodic_pair)
    = Ok (positions periodic_pair, cells periodic_pair).
Proof.
  split; [apply represents_to_dict|].
  split; [apply well_formed_periodic_pair|].
  apply (strain_identity (to_dict periodic_pair) periodic_pair true).
  - apply represents_to_dict.
  - apply well_formed_periodic_pair.
Defined.

(** ** Claims about periodic images *)

Lemma at_index_insert {A} `{Inhabited A} (t : list A) a i x :
  0 <= a < Z.of_nat (length t) -> 0 <= i ->
  at_index (<[Z.to_nat a := x]> t) i
  = if decide (i = a) then x else at_index t i.
Proof.
  intros Ha Hi. unfold at_index. destruct (decide (i = a)) as [->|Hne].
  - apply list_lookup_total_insert_eq. lia.
  - apply list_lookup_total_insert_ne. lia.
Qed.

Lemma zip_with_nested {A B C} (f : A -> B -> C) (g : A -> B -> B) l k :
  zip_with f l (zip_with g l k) = zip_with (fun x y => f x (g x y)) l k.
Proof.
  revert k. induction l as [|x l IH]; intros [|y k]; try done.
  rewrite !zip_with_cons. by rewrite IH.
Qed.

Lemma zip_with_ext_Forall {A B C} (f g : A -> B -> C) (P : A -> Prop) l k :
  Forall P l -> (forall x y, P x -> f x y = g x y) ->
  zip_with f l k = zip_with g l k.
Proof.
  intros Hall Hfg. revert k.
  induction Hall as [|x l Hx _ IH]; intros [|y k]; try done.
  rewrite !zip_with_cons. by rewrite IH, Hfg.
Qed.

Lemma translate_atom_well_formed b a k sn sc :
  well_formed b -> well_formed (translate_atom b a k sn sc).
Proof.
  intros Hwf. pose proof Hwf as [Hwe Hwc Hwp]. unfold translate_atom.
  destruct (periodic b) as [[cell offsets]|] eqn:Eper; [|done].
  destruct Hwp as [Hclen Holen].
  split; unfold n_atoms, n_structures in *; simpl.
  - by rewrite length_insert.
  - destruct (collation b) as [[bt ptr]|]; [|done]. by rewrite length_insert.
  - split; [done|]. rewrite length_zip_with. lia.
Qed.

Lemma moved_edge_vector (pa pc pn o k km : vec3) (m : mat3) :
  km = Mat3.vecmul k m ->
  (Vec3.sub (Vec3.sub (Vec3.add pa km) pn)
     (Mat3.vecmul (Vec3.add o (Vec3.scale 1 k)) m)
   = Vec3.sub (Vec3.sub pa pn) (Mat3.vecmul o m)) /\
  (Vec3.sub (Vec3.sub pc (Vec3.add pa km))
     (Mat3.vecmul (Vec3.add o (Vec3.scale (-1) k)) m)
   = Vec3.sub (Vec3.sub pc pa) (Mat3.vecmul o m)) /\
  (Vec3.sub (Vec3.sub (Vec3.add pa km) (Vec3.add pa km))
     (Mat3.vecmul (Vec3.add (Vec3.add o (Vec3.scale (-1) k)) (Vec3.scale 1 k)) m)
   = Vec3.sub (Vec3.sub pa pa) (Mat3.vecmul o m)).
Proof. intros ->. split_and!; rows_ring. Qed.

Lemma translate_atom_edge_vectors b a k :
  well_formed b -> n_structures b = 1 -> 0 <= a < n_atoms b ->
  edge_vectors (translate_atom b a k (-1) 1) = edge_vectors b.
Proof.
  intros Hwf Hone Ha. pose proof Hwf as [Hwe _ Hwp].
  unfold edge_vectors, translate_atom, n_atoms in *.
  destruct (periodic b) as [[cell offsets]|] eqn:Eper; [|by rewrite Eper].
  simpl. rewrite zip_with_nested.
  eapply zip_with_ext_Forall; [exact Hwe|].
  intros [c n] o [Hc Hn]. simpl in Hc, Hn.
  unfold cell_of, n_structures, displacement, adjust_offset. simpl.
  fold (n_structures b). destruct (decide (n_structures b = 1)); [|done].
  rewrite !at_index_insert by lia.
  destruct (moved_edge_vector (at_index (positions b) a)
              (at_index (positions b) c) (at_index (positions b) n) o
              (as_row k) _ (at_index cell 0) eq_refl) as (H1 & H2 & H3).
  destruct (decide (c = a)) as [->|], (decide (n = a)) as [->|]; done.
Qed.

(** C7, as amended: moving an atom of a periodic structure by the
    lattice combination [k . cell], with [k] subtracted from the offsets of
    the edges where the atom is the neighbor and added where it is the
    center, leaves every [edge_vector] and [edge_length] unchanged. *)
Theorem periodic_shift_invariance data data' b a k compute_forces compute_virial :
  represents data b -> well_formed b ->
  n_structures b = 1 -> is_Some (periodic b) -> 0 <= a < n_atoms b ->
  represents data' (translate_atom b a k (-1) 1) ->
  exists out out',
    compute_edge_data data compute_forces compute_virial = Ok out /\
    compute_edge_data data' compute_forces compute_virial = Ok out' /\
    tval <$> out' !! keys.EDGE_LENGTH = tval <$> out !! keys.EDGE_LENGTH /\
    tval <$> out' !! keys.EDGE_VECTOR = tval <$> out !! keys.EDGE_VECTOR.
Proof.
  intros Hrep Hwf Hone _ Ha Hrep'.
  pose proof (translate_atom_well_formed _ a k (-1) 1 Hwf) as Hwf'.
  destruct (compute_edge_data_spec _ _ compute_forces compute_virial Hrep Hwf)
    as (out & Hout & P).
  destruct (compute_edge_data_spec _ _ compute_forces compute_virial Hrep' Hwf')
    as (out' & Hout' & P').
  exists out, out'. split_and!; [done|done| |].
  - pose proof (ep_length _ _ _ _ _ P) as H1.
    pose proof (ep_length _ _ _ _ _ P') as H2.
    unfold holds in *. rewrite H1, H2.
    by rewrite translate_atom_edge_vectors.
  - pose proof (ep_vector _ _ _ _ _ P) as H1.
    pose proof (ep_vector _ _ _ _ _ P') as H2.
    unfold holds in *. rewrite H1, H2.
    by rewrite translate_atom_edge_vectors.
Qed.

Lemma periodic_shift_invariance_witness :
  represents (to_dict periodic_pair) periodic_pair /\
  well_formed periodic_pair /\
  n_structures periodic_pair = 1 /\
  is_Some (periodic periodic_pair) /\
  0 <= 1 < n_atoms periodic_pair /\
  exists out out',
    compute_edge_data (to_dict periodic_pair) true false = Ok out /\
    compute_edge_data
      (to_dict (translate_atom periodic_pair 1 (1, 0, 0) (-1) 1)) true false
    = Ok out' /\
    tval <$> out' !! keys.EDGE_LENGTH = tval <$> out !! keys.EDGE_LENGTH /\
    tval <$> out' !! keys.EDGE_VECTOR = tval <$> out !! keys.EDGE_VECTOR.
Proof.
  split; [apply represents_to_dict|].
  split; [apply well_formed_periodic_pair|].
  split; [reflexivity|].
  split; [eexists; reflexivity|].
  split; [unfold n_atoms; simpl; lia|].
  apply (periodic_shift_invariance (to_dict periodic_pair)
           (to_dict (translate_atom periodic_pair 1 (1, 0, 0) (-1) 1))
           periodic_pair 1 (1, 0, 0) true false).
  - apply represents_to_dict.
  - apply well_formed_periodic_pair.
  - reflexivity.
  - eexists; reflexivity.
  - unfold n_atoms; simpl; lia.
  - apply represents_to_dict.
Defined.

(** C7, as claimed, fails: with [k] added where the moved atom is the
    neighbor and subtracted where it is the center, the edge of
    [periodic_pair] with center 0 and neighbor 1 goes from length 1 to
    length 3 when atom 1 moves by one lattice vector. *)
Lemma claimed_offsets_change_edge_length :
  exists out out',
    compute_edge_data (to_dict periodic_pair) true false = Ok out /\
    compute_edge_data
      (to_dict (translate_atom periodic_pair 1 (1, 0, 0) 1 (-1))) true false
    = Ok out' /\
    tval <$> out' !! keys.EDGE_LENGTH <> tval <$> out !! keys.EDGE_LENGTH.
Proof.
  pose proof well_formed_periodic_pair as Hwf.
  pose proof (translate_atom_well_formed _ 1 (1, 0, 0) 1 (-1) Hwf) as Hwf'.
  destruct (compute_edge_data_spec _ _ true false
              (represents_to_dict periodic_pair) Hwf) as (out & Hout & P).
  destruct (compute_edge_data_spec _ _ true false
              (represents_to_dict _) Hwf') as (out' & Hout' & P').
  exists out, out'. split_and!; [done|done|].
  pose proof (ep_length _ _ _ _ _ P) as H1.
  pose proof (ep_length _ _ _ _ _ P') as H2.
  unfold holds in *. rewrite H1, H2. intros [= Heq _].
  revert Heq. unfold Vec3.norm. intros Heq. apply sqrt_inj in Heq.
  - revert Heq. unfold cell_of, displacement, at_index, identity3. simpl.
    unfold Vec3.dot, Vec3.sub, Mat3.vecmul, Vec3.add, Vec3.scale. simpl. lra.
  - unfold cell_of, displacement, at_index, identity3. simpl.
    unfold Vec3.dot, Vec3.sub, Mat3.vecmul, Vec3.add, Vec3.scale. simpl. lra.
  - unfold cell_of, displacement, at_index, identity3. simpl.
    unfold Vec3.dot, Vec3.sub, Mat3.vecmul, Vec3.add, Vec3.scale. simpl. lra.
Qed.

(** ** The engine monad and the backward pass *)

Lemma M_bind_Ok {A B} (m : M A) (f : A -> M B) st b st' :
  (m ≫= f) st = Ok (b, st') <->
  exists a st1, m st = Ok (a, st1) /\ f a st1 = Ok (b, st').
Proof.
  unfold mbind, M_bind. split.
  - destruct (m st) as [[a st1]|e]; [|done]. intros H. by exists a, st1.
  - intros (a & st1 & -> & H). exact H.
Qed.

Lemma lift_Ok {A} (r : result A) st a st' :
  lift r st = Ok (a, st') <-> r = Ok a /\ st' = st.
Proof.
  unfold lift. destruct r as [x|e]; split; try done.
  - intros [= -> ->]. done.
  - intros [[= ->] ->]. done.
  - intros [[=] _].
Qed.

Lemma mret_Ok {A} (x a : A) st st' :
  (mret x : M A) st = Ok (a, st') <-> x = a /\ st' = st.
Proof.
  unfold mret, M_ret. split; [by intros [= -> ->]|by intros [-> ->]].
Qed.

Lemma shape_ones_like v : Autograd.shape (Torch.ones_like v) = Autograd.shape v.
Proof. destruct v; simpl; by rewrite length_replicate. Qed.

Lemma bind_replicate_const {A} (f : A -> list R) (x : A) k n :
  f x = replicate k 1%R ->
  replicate n x ≫= f = replicate (k * n) 1%R.
Proof.
  intros Hf. induction n as [|n IH].
  - by rewrite Nat.mul_0_r.
  - replace (k * S n)%nat with (k + k * n)%nat by lia.
    rewrite replicate_add, <- IH, <- Hf. done.
Qed.

Lemma flat_ones_like v :
  Autograd.flat (Torch.ones_like v) = replicate (Torch.numel v) 1%R.
Proof.
  destruct v as [l|l|l|l|l]; simpl Torch.ones_like; simpl Torch.numel;
    unfold Autograd.flat.
  - by rewrite fmap_replicate.
  - rewrite !fmap_replicate. simpl.
    by rewrite Nat.add_0_r, replicate_add.
  - done.
  - by apply (bind_replicate_const _ _ 3).
  - by apply (bind_replicate_const _ _ 9).
Qed.

(** Without [allow_unused] a backward pass never delivers [None]. *)
Lemma input_grad_never_None g output grad_output create_graph inp r :
  Autograd.input_grad g output grad_output create_graph false inp = Ok r ->
  is_Some r.
Proof.
  unfold Autograd.input_grad. destruct (g output inp) as [J|]; [|done].
  destruct (Autograd.vjp _ _ _); simpl; [|done]. intros [= <-]. by eexists.
Qed.

Lemma grad_Ok g output inputs create_graph retain_graph allow_unused st grads st' :
  Autograd.grad g output inputs (Torch.ones_like (tval output))
    retain_graph create_graph allow_unused st = Ok (grads, st') <->
  requires_grad output = true /\
  forallb requires_grad inputs = true /\
  traverse (Autograd.input_grad g output (Torch.ones_like (tval output))
              create_graph allow_unused) inputs = Ok grads /\
  st' = BackwardCall (length inputs) retain_graph create_graph :: st.
Proof.
  unfold Autograd.grad. rewrite shape_ones_like.
  rewrite bool_decide_eq_true_2 by done. simpl.
  destruct (requires_grad output); simpl; [|by split; [|intros [? _]]].
  destruct (forallb requires_grad inputs); simpl;
    [|by split; [|intros (_ & ? & _)]].
  destruct (traverse _ inputs) as [gs|e]; simpl.
  - split; [by intros [= -> <-]|by intros (_ & _ & [= ->] & ->)].
  - split; [done|by intros (_ & _ & ? & _)].
Qed.

(** *** When the three derivative functions return *)

Lemma compute_forces_only_Ok g energy pos training st f st' :
  compute_forces_only g energy pos training st = Ok (f, st') <->
  requires_grad energy = true /\ requires_grad pos = true /\
  st' = BackwardCall 1 training training :: st /\
  exists t,
    Autograd.input_grad g energy (Torch.ones_like (tval energy)) training false pos
    = Ok (Some t) /\
    f = negated t.
Proof.
  unfold compute_forces_only. rewrite M_bind_Ok. split.
  - intros (grads & st1 & Hg & Hret).
    apply grad_Ok in Hg as (He & Hp & Htr & ->).
    simpl in Hp, Htr. rewrite andb_true_r in Hp.
    destruct (Autograd.input_grad _ _ _ _ _ pos) as [r|] eqn:Er; [|done].
    pose proof (input_grad_never_None _ _ _ _ _ _ Er) as [t ->].
    simpl in Htr. injection Htr as <-.
    apply mret_Ok in Hret as [<- ->]. split_and!; try done. by exists t.
  - intros (He & Hp & -> & t & Ht & ->).
    exists [Some t], (BackwardCall 1 training training :: st). split; [|done].
    apply grad_Ok. split_and!; try done.
    + simpl. by rewrite Hp.
    + simpl. by rewrite Ht.
Qed.

Lemma compute_virial_only_Ok g energy strain training st v st' :
  compute_virial_only g energy strain training st = Ok (v, st') <->
  requires_grad energy = true /\ requires_grad strain = true /\
  st' = BackwardCall 1 training training :: st /\
  exists t,
    Autograd.input_grad g energy (Torch.ones_like (tval energy)) training false strain
    = Ok (Some t) /\
    v = negated t.
Proof. apply compute_forces_only_Ok. Qed.

Lemma compute_forces_and_virial_Ok g energy pos strain training st f v st' :
  compute_forces_and_virial g energy pos strain training st = Ok ((f, v), st') <->
  requires_grad energy = true /\
  requires_grad pos = true /\ requires_grad strain = true /\
  st' = BackwardCall 2 training training :: st /\
  exists t u,
    Autograd.input_grad g energy (Torch.ones_like (tval energy)) training false pos
    = Ok (Some t) /\
    Autograd.input_grad g energy (Torch.ones_like (tval energy)) training false strain
    = Ok (Some u) /\
    f = negated t /\ v = negated u.
Proof.
  unfold compute_forces_and_virial. rewrite M_bind_Ok. split.
  - intros (grads & st1 & Hg & Hret).
    apply grad_Ok in Hg as (He & Hp & Htr & ->).
    simpl in Hp, Htr. rewrite andb_true_r in Hp.
    apply andb_true_iff in Hp as [Hp Hs].
    destruct (Autograd.input_grad _ _ _ _ _ pos) as [r|] eqn:Er; [|done].
    pose proof (input_grad_never_None _ _ _ _ _ _ Er) as [t ->].
    destruct (Autograd.input_grad _ _ _ _ _ strain) as [r|] eqn:Es; [|done].
    pose proof (input_grad_never_None _ _ _ _ _ _ Es) as [u ->].
    simpl in Htr. injection Htr as <-.
    apply mret_Ok in Hret as [[= <- <-] ->]. split_and!; try done.
    by exists t, u.
  - intros (He & Hp & Hs & -> & t & u & Ht & Hu & -> & ->).
    exists [Some t; Some u], (BackwardCall 2 training training :: st).
    split; [|done].
    apply grad_Ok. split_and!; try done.
    + simpl. by rewrite Hp, Hs.
    + simpl. by rewrite Ht, Hu.
Qed.

(** ** C1: an energy that the graph does not connect to the input *)

Lemma disconnected_forces_raise (g : graph) energy pos training st :
  requires_grad energy = true -> requires_grad pos = true ->
  g energy pos = None ->
  compute_forces_only g energy pos training st = Err UnusedInput.
Proof.
  intros He Hp Hg. unfold compute_forces_only, mbind, M_bind, Autograd.grad.
  rewrite He, shape_ones_like, bool_decide_eq_true_2 by done. simpl.
  rewrite Hp. simpl. unfold Autograd.input_grad. by rewrite Hg.
Qed.

Lemma disconnected_virial_raise (g : graph) energy strain training st :
  requires_grad energy = true -> requires_grad strain = true ->
  g energy strain = None ->
  compute_virial_only g energy strain training st = Err UnusedInput.
Proof. apply disconnected_forces_raise. Qed.

(** The zero tensor of the fallback is never what the forces are made
    of: a call that returns has found the positions in the graph. *)
Lemma forces_fallback_unreachable (g : graph) energy pos training st f st' :
  compute_forces_only g energy pos training st = Ok (f, st') ->
  is_Some (g energy pos).
Proof.
  intros (_ & _ & _ & t & Ht & _)%compute_forces_only_Ok.
  unfold Autograd.input_grad in Ht. by destruct (g energy pos).
Qed.

(** C1: on an energy that does not depend on the positions the forces
    are not the zero tensor: the backward pass raises, both for the forces
    and, on a strain the energy does not depend on, for the virial. *)
Theorem disconnected_energy_raises :
  compute_forces_only disconnected sample_energy sample_pos true []
  = Err UnusedInput /\
  compute_virial_only disconnected sample_energy sample_strain true []
  = Err UnusedInput /\
  compute_forces_only disconnected sample_energy sample_pos false []
  = Err UnusedInput.
Proof. split_and!; by apply disconnected_forces_raise. Qed.

(** ** C5: forces and virial together *)



(** ** C8: forces as the negated gradient of the summed energies *)

Lemma scale_one v : Torch.scale 1 v = v.
Proof.
  destruct v as [l|l|l|l|l]; simpl; try done; f_equal; apply fmap_id_on.
  - intros x. ring.
  - intros x. rows_ring.
  - intros x. rows_ring.
Qed.

Lemma vjp_ones zero J :
  Autograd.vjp zero (replicate (length J) 1%R) J = Autograd.row_sum zero J.
Proof.
  induction J as [|row J IH]; [done|]. simpl. by rewrite IH, scale_one.
Qed.

(** C8: the forces are [-1] times the vector-Jacobian product of the
    energies with the weights all one, which is the gradient with respect
    to the positions of the sum of the energies. *)
Theorem forces_are_negated_gradient_of_sum (g : graph) energy pos J total
    training st :
  requires_grad energy = true -> requires_grad pos = true ->
  g energy pos = Some J ->
  length J = Torch.numel (tval energy) ->
  Autograd.row_sum (Torch.zeros_like (tval pos)) J = Ok total ->
  Autograd.vjp (Torch.zeros_like (tval pos))
    (Autograd.flat (Torch.ones_like (tval energy))) J = Ok total /\
  exists forces,
    compute_forces_only g energy pos training st
    = Ok (forces, BackwardCall 1 training training :: st) /\
    tval forces = Torch.scale (-1) total.
Proof.
  intros He Hp Hg Hlen Hsum.
  assert (Hvjp : Autograd.vjp (Torch.zeros_like (tval pos))
                   (Autograd.flat (Torch.ones_like (tval energy))) J = Ok total).
  { by rewrite flat_ones_like, <- Hlen, vjp_ones. }
  split; [done|].
  exists (negated (Tensor total (training && differentiable g energy pos))).
  split; [|reflexivity].
  apply compute_forces_only_Ok. split_and!; try done.
  exists (Tensor total (training && differentiable g energy pos)).
  split; [|reflexivity].
  unfold Autograd.input_grad. by rewrite Hg, Hvjp.
Qed.

Lemma forces_are_negated_gradient_of_sum_witness :
  exists total,
    Autograd.row_sum (Torch.zeros_like (tval sample_pos))
      [Float2 [(1, 0, 0); (-1, 0, 0); (0, 0, 0)]%R;
       Float2 [(0, 0, 0); (0, 0, 0); (0, 2, 0)]%R] = Ok total /\
    Autograd.vjp (Torch.zeros_like (tval sample_pos))
      (Autograd.flat (Torch.ones_like (tval sample_energy)))
      [Float2 [(1, 0, 0); (-1, 0, 0); (0, 0, 0)]%R;
       Float2 [(0, 0, 0); (0, 0, 0); (0, 2, 0)]%R] = Ok total /\
    exists forces,
      compute_forces_only sample_graph sample_energy sample_pos true []
      = Ok (forces, [BackwardCall 1 true true]) /\
      tval forces = Torch.scale (-1) total.
Proof.
  eexists. split; [vm_compute; reflexivity|].
  apply (forces_are_negated_gradient_of_sum sample_graph sample_energy
           sample_pos _ _ true []); vm_compute; reflexivity.
Defined.

(** ** Property derivation and the composition shell *)

Lemma items_of_spec data ks items :
  items_of data ks = Ok items ->
  items.*1 = ks /\ Forall (fun kv => data !! kv.1 = Some kv.2) items.
Proof.
  unfold items_of. revert items.
  induction ks as [|k ks IH]; simpl; intros items.
  - by intros [= <-].
  - unfold getitem. destruct (data !! k) as [t|] eqn:Ek; simpl; [|done].
    destruct (traverse _ ks) as [rest|]; simpl; [|done].
    intros [= <-]. destruct (IH rest eq_refl) as [<- Hall].
    split; [done|]. by constructor.
Qed.

Lemma dict_update_lookup (data d : dict) items k :
  Forall (fun kv => data !! kv.1 = Some kv.2) items ->
  dict_update d items !! k
  = if decide (k ∈ items.*1) then data !! k else d !! k.
Proof.
  intros Hall. revert d. unfold dict_update.
  induction Hall as [|[k' t] items Hkv _ IH]; intros d; simpl.
  - done.
  - rewrite IH. simpl in Hkv.
    destruct (decide (k ∈ items.*1)) as [Hin|Hnin].
    + rewrite decide_True by (by right). done.
    + destruct (decide (k = k')) as [->|Hne].
      * rewrite decide_True by (by left). by rewrite lookup_insert_eq.
      * rewrite decide_False by (by intros [?|?]%elem_of_cons).
        by rewrite lookup_insert_ne.
Qed.

Lemma listed_item_present (data : dict) items k :
  Forall (fun kv => data !! kv.1 = Some kv.2) items ->
  k ∈ items.*1 -> is_Some (data !! k).
Proof.
  intros Hall (kv & -> & Hin)%list_elem_of_fmap.
  rewrite Forall_forall in Hall. rewrite (Hall _ Hin). by eexists.
Qed.

Lemma compute_properties_Ok g data compute_forces compute_virial training
    extras st results st' :
  compute_properties g data compute_forces compute_virial training extras st
  = Ok (results, st') ->
  exists (base : dict) items,
    dom base = (if compute_forces then {[keys.FORCES]} else ∅)
               ∪ (if compute_virial then {[keys.VIRIAL]} else (∅ : gset string)) /\
    items_of data (default [] extras) = Ok items /\
    results = dict_update base items.
Proof.
  unfold compute_properties. intros (base & st1 & Hbase & Hrest)%M_bind_Ok.
  exists base.
  assert (Hdom : dom base
                 = (if compute_forces then {[keys.FORCES]} else ∅)
                   ∪ (if compute_virial then {[keys.VIRIAL]} else (∅ : gset string))).
  { destruct compute_forces, compute_virial; simpl in Hbase.
    - apply M_bind_Ok in Hbase as (? & ? & _ & Hbase).
      apply M_bind_Ok in Hbase as (? & ? & _ & Hbase).
      apply M_bind_Ok in Hbase as (? & ? & _ & Hbase).
      apply M_bind_Ok in Hbase as ([f v] & ? & _ & Hbase).
      apply mret_Ok in Hbase as [<- _].
      rewrite !dom_insert_L, dom_empty_L. set_solver.
    - apply M_bind_Ok in Hbase as (? & ? & _ & Hbase).
      apply M_bind_Ok in Hbase as (? & ? & _ & Hbase).
      apply M_bind_Ok in Hbase as (? & ? & _ & Hbase).
      apply mret_Ok in Hbase as [<- _].
      rewrite !dom_insert_L, dom_empty_L. set_solver.
    - apply M_bind_Ok in Hbase as (? & ? & _ & Hbase).
      apply M_bind_Ok in Hbase as (? & ? & _ & Hbase).
      apply M_bind_Ok in Hbase as (? & ? & _ & Hbase).
      apply mret_Ok in Hbase as [<- _].
      rewrite !dom_insert_L, dom_empty_L. set_solver.
    - apply mret_Ok in Hbase as [<- _]. rewrite dom_empty_L. set_solver. }
  destruct extras as [ks|]; simpl.
  - apply M_bind_Ok in Hrest as (items & st2 & Hitems & Hret).
    apply lift_Ok in Hitems as [Hitems ->].
    apply mret_Ok in Hret as [<- _]. by exists items.
  - apply mret_Ok in Hrest as [<- _]. by exists [].
Qed.

Lemma compute_properties_keys g data compute_forces compute_virial training
    extras st results st' :
  compute_properties g data compute_forces compute_virial training extras st
  = Ok (results, st') ->
  dom results
  = (if compute_forces then {[keys.FORCES]} else ∅)
    ∪ (if compute_virial then {[keys.VIRIAL]} else ∅)
    ∪ (list_to_set (default [] extras) : gset string) /\
  (forall k, k ∈ default [] extras -> results !! k = data !! k).
Proof.
  intros (base & items & Hdom & Hitems & ->)%compute_properties_Ok.
  apply items_of_spec in Hitems as [Hkeys Hall]. split.
  - apply set_eq. intros k.
    rewrite elem_of_union, <- Hdom, elem_of_list_to_set, !elem_of_dom.
    rewrite (dict_update_lookup data) by done. rewrite Hkeys.
    destruct (decide (k ∈ default [] extras)) as [Hin|Hnin].
    + split; [by right|]. intros _.
      eapply listed_item_present; [exact Hall|by rewrite Hkeys].
    + split; [by left|]. by intros [?|?].
  - intros k Hk. rewrite (dict_update_lookup data) by done.
    by rewrite Hkeys, decide_True.
Qed.

(** C10: the keys of the mapping that property derivation returns are
    [forces] when forces are requested, [virial] when the virial is
    requested, and the extra properties, each copied from the batch; with
    nothing requested the mapping is empty, and [energy] is a key only as
    an extra property. *)
Theorem property_keys g data compute_forces compute_virial training extras
    st results st' :
  compute_properties g data compute_forces compute_virial training extras st
  = Ok (results, st') ->
  dom results
  = (if compute_forces then {[keys.FORCES]} else ∅)
    ∪ (if compute_virial then {[keys.VIRIAL]} else ∅)
    ∪ (list_to_set (default [] extras) : gset string) /\
  (forall k, k ∈ default [] extras -> results !! k = data !! k) /\
  (compute_forces = false -> compute_virial = false ->
   default [] extras = [] -> results = ∅) /\
  (keys.TOTAL_ENERGY ∈ dom results <->
   keys.TOTAL_ENERGY ∈ default [] extras).
Proof.
  intros H. destruct (compute_properties_keys _ _ _ _ _ _ _ _ _ H) as [Hdom Hcopy].
  split_and!; [done|done| |].
  - intros -> -> Hnil. rewrite Hnil in Hdom. simpl in Hdom.
    apply dom_empty_iff_L. rewrite Hdom. set_solver.
  - rewrite Hdom, !elem_of_union, elem_of_list_to_set.
    split; [|by right]. intros [[Hf|Hv]|?]; [| |done].
    + destruct compute_forces; [|by apply elem_of_empty in Hf].
      by apply elem_of_singleton in Hf.
    + destruct compute_virial; [|by apply elem_of_empty in Hv].
      by apply elem_of_singleton in Hv.
Qed.

Lemma property_keys_witness :
  exists results st',
    compute_properties sample_graph evaluated_batch true false true
      (Some [keys.TOTAL_ENERGY]) [] = Ok (results, st') /\
    dom results
    = {[keys.FORCES]} ∪ ∅ ∪ (list_to_set [keys.TOTAL_ENERGY] : gset string) /\
    (forall k, k ∈ [keys.TOTAL_ENERGY] -> results !! k = evaluated_batch !! k) /\
    (true = false -> false = false -> [keys.TOTAL_ENERGY] = [] -> results = ∅) /\
    (keys.TOTAL_ENERGY ∈ dom results <-> keys.TOTAL_ENERGY ∈ [keys.TOTAL_ENERGY]).
Proof.
  eexists _, _. split; [vm_compute; reflexivity|].
  eapply (property_keys sample_graph evaluated_batch true false true
           (Some [keys.TOTAL_ENERGY]) []).
  vm_compute; reflexivity.
Defined.

Lemma forward_Ok g self data compute_forces compute_virial st results st' :
  forward g self data compute_forces compute_virial st = Ok (results, st') ->
  exists prepared evaluated,
    compute_edge_data data compute_forces compute_virial = Ok prepared /\
    run_modules (module_list self) prepared = Ok evaluated /\
    compute_properties g evaluated compute_forces compute_virial (training self)
      (Some (extra_properties self)) st = Ok (results, st').
Proof.
  unfold forward. intros (prepared & st1 & Hprep & Hrest)%M_bind_Ok.
  apply lift_Ok in Hprep as [Hprep ->].
  apply M_bind_Ok in Hrest as (evaluated & st2 & Hrun & Hprop).
  apply lift_Ok in Hrun as [Hrun ->]. by exists prepared, evaluated.
Qed.

(** C2, as amended: the mapping that the forward entry point returns
    contains [forces] when forces are requested, [virial] when the virial
    is requested and every declared extra property; it contains [energy]
    exactly when [energy] is one of the declared extra properties. *)
Theorem forward_keys g self data compute_forces compute_virial st results st' :
  forward g self data compute_forces compute_virial st = Ok (results, st') ->
  (compute_forces = true -> keys.FORCES ∈ dom results) /\
  (compute_virial = true -> keys.VIRIAL ∈ dom results) /\
  (forall k, k ∈ extra_properties self -> k ∈ dom results) /\
  (keys.TOTAL_ENERGY ∈ dom results <->
   keys.TOTAL_ENERGY ∈ extra_properties self).
Proof.
  intros (prepared & evaluated & _ & _ & H)%forward_Ok.
  destruct (compute_properties_keys _ _ _ _ _ _ _ _ _ H) as [Hdom _].
  simpl in Hdom. rewrite Hdom. split_and!.
  - intros ->. rewrite !elem_of_union, elem_of_singleton. by left; left.
  - intros ->. rewrite !elem_of_union, elem_of_singleton. by left; right.
  - intros k Hk. rewrite !elem_of_union, elem_of_list_to_set. by right.
  - rewrite !elem_of_union, elem_of_list_to_set.
    split; [|by right]. intros [[Hf|Hv]|?]; [| |done].
    + destruct compute_forces; [|by apply elem_of_empty in Hf].
      by apply elem_of_singleton in Hf.
    + destruct compute_virial; [|by apply elem_of_empty in Hv].
      by apply elem_of_singleton in Hv.
Qed.

Lemma forward_keys_witness :
  exists results st',
    forward sample_graph declared_energy_model (to_dict collated_pair)
      true true [] = Ok (results, st') /\
    (true = true -> keys.FORCES ∈ dom results) /\
    (true = true -> keys.VIRIAL ∈ dom results) /\
    (forall k, k ∈ extra_properties declared_energy_model -> k ∈ dom results) /\
    (keys.TOTAL_ENERGY ∈ dom results <->
     keys.TOTAL_ENERGY ∈ extra_properties declared_energy_model).
Proof.
  eexists _, _. split; [vm_compute; reflexivity|].
  eapply (forward_keys sample_graph declared_energy_model
           (to_dict collated_pair) true true []).
  vm_compute; reflexivity.
Defined.

(** C2, as claimed, fails: a model whose stages compute the energy but
    which declares no extra property returns forces and virial and no
    [energy]. *)
Lemma forward_without_energy :
  exists results st',
    forward sample_graph undeclared_energy_model (to_dict collated_pair)
      true true [] = Ok (results, st') /\
    is_Some (results !! keys.FORCES) /\
    is_Some (results !! keys.VIRIAL) /\
    results !! keys.TOTAL_ENERGY = None.
Proof.
  eexists _, _. split; [vm_compute; reflexivity|].
  split_and!; vm_compute; by eauto.
Qed.

(** * Further properties of edge preparation *)

(** Two batches with the same edge vectors are prepared to the same
    [edge_vector] and [edge_length] values. *)
Lemma same_vectors_same_outputs data data' b b' compute_forces compute_virial :
  represents data b -> well_formed b ->
  represents data' b' -> well_formed b' ->
  edge_vectors b' = edge_vectors b ->
  exists out out',
    compute_edge_data data compute_forces compute_virial = Ok out /\
    compute_edge_data data' compute_forces compute_virial = Ok out' /\
    tval <$> out' !! keys.EDGE_VECTOR = tval <$> out !! keys.EDGE_VECTOR /\
    tval <$> out' !! keys.EDGE_LENGTH = tval <$> out !! keys.EDGE_LENGTH.
Proof.
  intros Hrep Hwf Hrep' Hwf' Heq.
  destruct (compute_edge_data_spec _ _ compute_forces compute_virial Hrep Hwf)
    as (out & Hout & P).
  destruct (compute_edge_data_spec _ _ compute_forces compute_virial Hrep' Hwf')
    as (out' & Hout' & P').
  exists out, out'. split_and!; [done|done| |].
  - pose proof (ep_vector _ _ _ _ _ P) as H1.
    pose proof (ep_vector _ _ _ _ _ P') as H2.
    unfold holds in *. by rewrite H1, H2, Heq.
  - pose proof (ep_length _ _ _ _ _ P) as H1.
    pose proof (ep_length _ _ _ _ _ P') as H2.
    unfold holds in *. by rewrite H1, H2, Heq.
Qed.

Lemma at_index_fmap {A B} `{Inhabited A, Inhabited B} (f : A -> B) (t : list A) i :
  0 <= i < Z.of_nat (length t) -> at_index (f <$> t) i = f (at_index t i).
Proof.
  intros Hi. unfold at_index.
  rewrite (@list_lookup_total_fmap _ _ f _ _) by lia. done.
Qed.

Lemma displacement_fmap (f : vec3 -> vec3) (pos : list vec3) e :
  0 <= e.1 < Z.of_nat (length pos) -> 0 <= e.2 < Z.of_nat (length pos) ->
  displacement (f <$> pos) e = Vec3.sub (f (at_index pos e.1)) (f (at_index pos e.2)).
Proof. intros H1 H2. unfold displacement. by rewrite !at_index_fmap. Qed.

Lemma translate_all_well_formed b t : well_formed b -> well_formed (translate_all b t).
Proof.
  intros [Hwe Hwc Hwp]. split; unfold n_atoms, n_structures in *; simpl.
  - by rewrite length_fmap.
  - destruct (collation b) as [[bt ptr]|]; [|done]. by rewrite length_fmap.
  - done.
Qed.

Lemma translate_all_edge_vectors b t :
  well_formed b -> edge_vectors (translate_all b t) = edge_vectors b.
Proof.
  intros Hwf. pose proof Hwf as [Hwe _ _]. unfold n_atoms in Hwe.
  assert (Hd : Forall (fun e =>
            displacement ((fun p => Vec3.add p t) <$> positions b) e
            = displacement (positions b) e) (edge_index b)).
  { eapply Forall_impl; [exact Hwe|]. intros e [H1 H2]. simpl in *.
    rewrite displacement_fmap by done. unfold displacement.
    generalize (at_index (positions b) e.1) (at_index (positions b) e.2).
    rows_ring. }
  unfold edge_vectors. simpl.
  destruct (periodic b) as [[cell offsets]|].
  - eapply zip_with_ext_Forall; [exact Hd|]. intros e o He. simpl in He.
    rewrite He. unfold cell_of, n_structures, structure_index. simpl.
    by rewrite length_fmap.
  - by apply Forall_fmap_ext_1.
Qed.

(** X1: moving every atom by one and the same vector changes no edge
    vector and no edge length. *)
Theorem edge_data_translation_invariant data data' b t compute_forces compute_virial :
  represents data b -> well_formed b ->
  represents data' (translate_all b t) ->
  exists out out',
    compute_edge_data data compute_forces compute_virial = Ok out /\
    compute_edge_data data' compute_forces compute_virial = Ok out' /\
    tval <$> out' !! keys.EDGE_VECTOR = tval <$> out !! keys.EDGE_VECTOR /\
    tval <$> out' !! keys.EDGE_LENGTH = tval <$> out !! keys.EDGE_LENGTH.
Proof.
  intros Hrep Hwf Hrep'.
  eapply same_vectors_same_outputs; try done.
  - by apply translate_all_well_formed.
  - by apply translate_all_edge_vectors.
Qed.

Lemma edge_data_translation_invariant_witness :
  exists out out',
    compute_edge_data (to_dict collated_pair) true true = Ok out /\
    compute_edge_data (to_dict (translate_all collated_pair (1, 2, 3)%R)) true true
    = Ok out' /\
    tval <$> out' !! keys.EDGE_VECTOR = tval <$> out !! keys.EDGE_VECTOR /\
    tval <$> out' !! keys.EDGE_LENGTH = tval <$> out !! keys.EDGE_LENGTH.
Proof.
  apply (edge_data_translation_invariant (to_dict collated_pair)
           (to_dict (translate_all collated_pair (1, 2, 3)%R))
           collated_pair (1, 2, 3)%R true true).
  - apply represents_to_dict.
  - apply well_formed_collated_pair.
  - apply represents_to_dict.
Defined.

Lemma zip_with_post {A B C D} (f : A -> B -> C) (g : C -> D) l k :
  zip_with (fun x y => g (f x y)) l k = g <$> zip_with f l k.
Proof.
  revert k. induction l as [|x l IH]; intros [|y k]; try done.
  rewrite !zip_with_cons, fmap_cons. by rewrite IH.
Qed.

Lemma rescale_well_formed s b : well_formed b -> well_formed (rescale s b).
Proof.
  intros [Hwe Hwc Hwp]. split; unfold n_atoms, n_structures in *; simpl.
  - by rewrite length_fmap.
  - destruct (collation b) as [[bt ptr]|]; [|done]. by rewrite length_fmap.
  - destruct (periodic b) as [[cell offsets]|]; [|done].
    by rewrite length_fmap.
Qed.

Lemma dot_nonneg v : (0 <= Vec3.dot v v)%R.
Proof. split_rows. unfold Vec3.dot. nra. Qed.

Lemma norm_scale s v : Vec3.norm (Vec3.scale s v) = (Rabs s * Vec3.norm v)%R.
Proof.
  unfold Vec3.norm. rewrite <- sqrt_Rsqr_abs.
  rewrite <- sqrt_mult_alt by apply Rle_0_sqr. f_equal.
  split_rows. unfold Vec3.dot, Vec3.scale, Rsqr. ring.
Qed.

Lemma rescale_edge_vectors s b :
  well_formed b ->
  edge_vectors (rescale s b) = Vec3.scale s <$> edge_vectors b.
Proof.
  intros Hwf. pose proof Hwf as [Hwe _ Hwp]. unfold n_atoms in Hwe.
  pose proof (n_structures_pos _ Hwf) as Hn.
  assert (Hd : forall e,
            0 <= e.1 < Z.of_nat (length (positions b)) /\
            0 <= e.2 < Z.of_nat (length (positions b)) ->
            displacement (Vec3.scale s <$> positions b) e
            = Vec3.scale s (displacement (positions b) e)).
  { intros e [H1 H2]. rewrite displacement_fmap by done. unfold displacement.
    generalize (at_index (positions b) e.1) (at_index (positions b) e.2).
    rows_ring. }
  unfold edge_vectors. simpl.
  destruct (periodic b) as [[cell offsets]|].
  - destruct Hwp as [Hclen _]. rewrite <- zip_with_post.
    eapply zip_with_ext_Forall; [exact Hwe|]. intros e o He.
    rewrite Hd by done.
    assert (Hc : cell_of (rescale s b) (Mat3.scale s <$> cell) e.2
                 = Mat3.scale s (cell_of b cell e.2)).
    { assert (Hsi : structure_index (rescale s b) = structure_index b).
      { unfold structure_index. simpl. by rewrite length_fmap. }
      unfold cell_of. rewrite Hsi.
      change (n_structures (rescale s b)) with (n_structures b).
      destruct (decide (n_structures b = 1)).
      - by rewrite at_index_fmap by lia.
      - rewrite at_index_fmap; [done|]. rewrite Hclen.
        apply structure_of_atom; [done|]. by destruct He. }
    rewrite Hc.
    generalize (displacement (positions b) e) (cell_of b cell e.2).
    rows_ring.
  - rewrite <- list_fmap_compose. apply Forall_fmap_ext_1.
    eapply Forall_impl; [exact Hwe|]. intros e He. by apply Hd.
Qed.

(** X2: in another length unit, with positions and cells scaled by [s],
    every edge vector is scaled by [s] and every edge length by [|s|]. *)
Theorem edge_data_scales_with_unit data data' b s compute_forces compute_virial :
  represents data b -> well_formed b ->
  represents data' (rescale s b) ->
  exists out out' vectors lengths,
    compute_edge_data data compute_forces compute_virial = Ok out /\
    compute_edge_data data' compute_forces compute_virial = Ok out' /\
    holds out keys.EDGE_VECTOR (Float2 vectors) /\
    holds out keys.EDGE_LENGTH (Float1 lengths) /\
    holds out' keys.EDGE_VECTOR (Float2 (Vec3.scale s <$> vectors)) /\
    holds out' keys.EDGE_LENGTH (Float1 (Rmult (Rabs s) <$> lengths)).
Proof.
  intros Hrep Hwf Hrep'.
  pose proof (rescale_well_formed s _ Hwf) as Hwf'.
  destruct (compute_edge_data_spec _ _ compute_forces compute_virial Hrep Hwf)
    as (out & Hout & P).
  destruct (compute_edge_data_spec _ _ compute_forces compute_virial Hrep' Hwf')
    as (out' & Hout' & P').
  exists out, out', (edge_vectors b), (Vec3.norm <$> edge_vectors b).
  split_and!; [done|done|apply P|apply P| |].
  - rewrite <- rescale_edge_vectors by done. apply P'.
  - pose proof (ep_length _ _ _ _ _ P') as H. unfold holds in *. rewrite H.
    rewrite rescale_edge_vectors by done. rewrite <- !list_fmap_compose.
    do 2 f_equal. apply list_fmap_ext. intros i v _. simpl. apply norm_scale.
Qed.

Lemma edge_data_scales_with_unit_witness :
  exists out out' vectors lengths,
    compute_edge_data (to_dict collated_pair) true false = Ok out /\
    compute_edge_data (to_dict (rescale 2 collated_pair)) true false = Ok out' /\
    holds out keys.EDGE_VECTOR (Float2 vectors) /\
    holds out keys.EDGE_LENGTH (Float1 lengths) /\
    holds out' keys.EDGE_VECTOR (Float2 (Vec3.scale 2 <$> vectors)) /\
    holds out' keys.EDGE_LENGTH (Float1 (Rmult (Rabs 2) <$> lengths)).
Proof.
  apply (edge_data_scales_with_unit (to_dict collated_pair)
           (to_dict (rescale 2 collated_pair)) collated_pair 2 true false).
  - apply represents_to_dict.
  - apply well_formed_collated_pair.
  - apply represents_to_dict.
Defined.

(** X3: edge preparation returns one vector and one length per edge, and
    no length is negative. *)
Theorem one_entry_per_edge data b compute_forces compute_virial :
  represents data b -> well_formed b ->
  exists out vectors lengths,
    compute_edge_data data compute_forces compute_virial = Ok out /\
    holds out keys.EDGE_VECTOR (Float2 vectors) /\
    holds out keys.EDGE_LENGTH (Float1 lengths) /\
    length vectors = length (edge_index b) /\
    length lengths = length (edge_index b) /\
    Forall (fun l => (0 <= l)%R) lengths.
Proof.
  intros Hrep Hwf.
  destruct (compute_edge_data_spec _ _ compute_forces compute_virial Hrep Hwf)
    as (out & Hout & P).
  assert (Hlen : length (edge_vectors b) = length (edge_index b)).
  { pose proof (wf_periodic _ Hwf) as Hwp. unfold edge_vectors.
    destruct (periodic b) as [[cell offsets]|].
    - rewrite length_zip_with. lia.
    - by rewrite length_fmap. }
  exists out, (edge_vectors b), (Vec3.norm <$> edge_vectors b).
  split_and!; [done|apply P|apply P|done|by rewrite length_fmap|].
  apply Forall_fmap, Forall_true. intros v. apply sqrt_pos.
Qed.

Lemma one_entry_per_edge_witness :
  exists out vectors lengths,
    compute_edge_data (to_dict periodic_pair) false true = Ok out /\
    holds out keys.EDGE_VECTOR (Float2 vectors) /\
    holds out keys.EDGE_LENGTH (Float1 lengths) /\
    length vectors = length (edge_index periodic_pair) /\
    length lengths = length (edge_index periodic_pair) /\
    Forall (fun l => (0 <= l)%R) lengths.
Proof.
  apply (one_entry_per_edge (to_dict periodic_pair) periodic_pair false true).
  - apply represents_to_dict.
  - apply well_formed_periodic_pair.
Defined.

Lemma norm_opposite v : Vec3.norm (Vec3.scale (-1) v) = Vec3.norm v.
Proof.
  rewrite norm_scale. replace (Rabs (-1)) with 1%R; [ring|].
  unfold Rabs. destruct (Rcase_abs (-1)); lra.
Qed.

(** X4: an edge and its reverse, with the opposite offset and both atoms
    in one structure, have opposite vectors and the same length. *)
Theorem reversed_edge_is_opposite data b compute_forces compute_virial i j c n :
  represents data b -> well_formed b ->
  edge_index b !! i = Some (c, n) -> edge_index b !! j = Some (n, c) ->
  at_index (structure_index b) c = at_index (structure_index b) n ->
  match periodic b with
  | None => True
  | Some (_, offsets) =>
      exists o, offsets !! i = Some o /\ offsets !! j = Some (Vec3.scale (-1) o)
  end ->
  exists out vectors lengths v l,
    compute_edge_data data compute_forces compute_virial = Ok out /\
    holds out keys.EDGE_VECTOR (Float2 vectors) /\
    holds out keys.EDGE_LENGTH (Float1 lengths) /\
    vectors !! i = Some v /\ vectors !! j = Some (Vec3.scale (-1) v) /\
    lengths !! i = Some l /\ lengths !! j = Some l.
Proof.
  intros Hrep Hwf Hi Hj Hsame Hoff.
  destruct (compute_edge_data_spec _ _ compute_forces compute_virial Hrep Hwf)
    as (out & Hout & P).
  destruct (edge_vectors_lookup _ _ _ _ Hwf Hi) as (v & Hv & Hfv).
  destruct (edge_vectors_lookup _ _ _ _ Hwf Hj) as (w & Hw & Hfw).
  assert (Hopp : w = Vec3.scale (-1) v).
  { cbv zeta in Hfv, Hfw. destruct (periodic b) as [[cell offsets]|].
    - destruct Hoff as (o & Hoi & Hoj).
      destruct Hfv as (o1 & Ho1 & ->). destruct Hfw as (o2 & Ho2 & ->).
      rewrite Hoi in Ho1. rewrite Hoj in Ho2.
      injection Ho1 as <-. injection Ho2 as <-.
      unfold cell_of. rewrite Hsame.
      destruct (decide (n_structures b = 1)).
      + generalize (at_index (positions b) c) (at_index (positions b) n)
          (at_index cell 0). rows_ring.
      + generalize (at_index (positions b) c) (at_index (positions b) n)
          (at_index cell (at_index (structure_index b) n)). rows_ring.
    - subst v w.
      generalize (at_index (positions b) c) (at_index (positions b) n).
      rows_ring. }
  exists out, (edge_vectors b), (Vec3.norm <$> edge_vectors b), v, (Vec3.norm v).
  split_and!; [done|apply P|apply P|done|by rewrite Hw, Hopp| |].
  - by rewrite list_lookup_fmap, Hv.
  - by rewrite list_lookup_fmap, Hw, Hopp, <- norm_opposite.
Qed.

Lemma reversed_edge_is_opposite_witness :
  exists out vectors lengths v l,
    compute_edge_data (to_dict collated_pair) true true = Ok out /\
    holds out keys.EDGE_VECTOR (Float2 vectors) /\
    holds out keys.EDGE_LENGTH (Float1 lengths) /\
    vectors !! 0%nat = Some v /\ vectors !! 1%nat = Some (Vec3.scale (-1) v) /\
    lengths !! 0%nat = Some l /\ lengths !! 1%nat = Some l.
Proof.
  apply (reversed_edge_is_opposite (to_dict collated_pair) collated_pair
           true true 0%nat 1%nat 0 1).
  - apply represents_to_dict.
  - apply well_formed_collated_pair.
  - reflexivity.
  - reflexivity.
  - reflexivity.
  - exists (0, 0, 0)%R. split; [reflexivity|].
    simpl. unfold Vec3.scale. do 2 f_equal; f_equal; ring.
Defined.

(** X5: the vector of an edge from an atom to itself does not depend on
    where the atom is: it is minus the lattice shift [offset . cell] in a
    periodic batch, and zero, with length zero, without a cell. *)
Theorem self_edge_is_lattice_shift data b compute_forces compute_virial i a :
  represents data b -> well_formed b ->
  edge_index b !! i = Some (a, a) ->
  exists out vectors lengths v,
    compute_edge_data data compute_forces compute_virial = Ok out /\
    holds out keys.EDGE_VECTOR (Float2 vectors) /\
    holds out keys.EDGE_LENGTH (Float1 lengths) /\
    vectors !! i = Some v /\
    match periodic b with
    | None => v = Vec3.zero /\ lengths !! i = Some 0%R
    | Some (cell, offsets) =>
        exists o, offsets !! i = Some o /\
          v = Vec3.scale (-1) (Mat3.vecmul o (cell_of b cell a))
    end.
Proof.
  intros Hrep Hwf Hi.
  destruct (compute_edge_data_spec _ _ compute_forces compute_virial Hrep Hwf)
    as (out & Hout & P).
  destruct (edge_vectors_lookup _ _ _ _ Hwf Hi) as (v & Hv & Hfv).
  exists out, (edge_vectors b), (Vec3.norm <$> edge_vectors b), v.
  split_and!; [done|apply P|apply P|done|].
  cbv zeta in Hfv. destruct (periodic b) as [[cell offsets]|].
  - destruct Hfv as (o & Ho & ->). exists o. split; [done|].
    generalize (at_index (positions b) a) (cell_of b cell a). rows_ring.
  - assert (Hz : v = Vec3.zero).
    { subst v. generalize (at_index (positions b) a). rows_ring. }
    split; [done|]. rewrite list_lookup_fmap, Hv, Hz. simpl. f_equal.
    unfold Vec3.norm, Vec3.dot, Vec3.zero.
    replace (0 * 0 + 0 * 0 + 0 * 0)%R with 0%R by ring. apply sqrt_0.
Qed.

Lemma self_edge_is_lattice_shift_witness :
  exists out vectors lengths v,
    compute_edge_data (to_dict periodic_pair) true false = Ok out /\
    holds out keys.EDGE_VECTOR (Float2 vectors) /\
    holds out keys.EDGE_LENGTH (Float1 lengths) /\
    vectors !! 2%nat = Some v /\
    exists o, [(0, 0, 0); (0, 0, 0); (1, 0, 0)]%R !! 2%nat = Some o /\
      v = Vec3.scale (-1) (Mat3.vecmul o (cell_of periodic_pair [identity3] 0)).
Proof.
  apply (self_edge_is_lattice_shift (to_dict periodic_pair) periodic_pair
           true false 2%nat 0).
  - apply represents_to_dict.
  - apply well_formed_periodic_pair.
  - reflexivity.
Defined.

(** * The batch that edge preparation returns *)

Lemma result_bind_Ok {A B} (m : result A) (f : A -> result B) b :
  (m ≫= f) = Ok b <-> exists a, m = Ok a /\ f a = Ok b.
Proof.
  unfold mbind, result_bind. destruct m as [a|e]; split.
  - intros H. by exists a.
  - by intros (a' & [= <-] & H).
  - done.
  - by intros (a' & [=] & _).
Qed.

(** Whatever the batch, a returned batch is the batch after collation
    fill-in, with positions flagged when forces are requested, plus the
    three written keys. *)
Lemma compute_edge_data_inv data compute_forces compute_virial out :
  compute_edge_data data compute_forces compute_virial = Ok out ->
  exists pos_t filled single strain vectors rg,
    getitem data keys.POSITIONS = Ok pos_t /\
    batch_info data (tval pos_t) = Ok (filled, single) /\
    out = <[keys.STRAIN := Tensor (Float3 strain) compute_virial]>
            (<[keys.EDGE_VECTOR := Tensor (Float2 vectors) rg]>
               (<[keys.EDGE_LENGTH := Tensor (Float1 (Torch.norm vectors)) rg]>
                  (if compute_forces
                   then <[keys.POSITIONS := Torch.requires_grad_ pos_t]> filled
                   else filled))).
Proof.
  unfold compute_edge_data. intros H.
  apply result_bind_Ok in H as (pos_t & Hpos & H).
  apply result_bind_Ok in H as (edge_t & _ & H).
  apply result_bind_Ok in H as ([filled single] & Hinfo & H).
  apply result_bind_Ok in H as (batch_t & _ & H).
  apply result_bind_Ok in H as (ptr_t & _ & H).
  apply result_bind_Ok in H as (cell_t & _ & H).
  cbv zeta in H.
  apply result_bind_Ok in H as (strain & _ & H).
  apply result_bind_Ok in H as (pos & _ & H).
  apply result_bind_Ok in H as (cell & _ & H).
  apply result_bind_Ok in H as (batch & _ & H).
  apply result_bind_Ok in H as ([[[pos' cell'] pg] cg] & _ & H).
  apply result_bind_Ok in H as (edges & _ & H).
  apply result_bind_Ok in H as (center & _ & H).
  apply result_bind_Ok in H as (neighbor & _ & H).
  apply result_bind_Ok in H as (vc & _ & H).
  apply result_bind_Ok in H as (vn & _ & H).
  apply result_bind_Ok in H as (vectors & _ & H).
  apply result_bind_Ok in H as ([shifted rg] & _ & H).
  injection H as <-.
  exists pos_t, filled, single, strain, shifted, rg.
  split_and!; [done|done|]. by destruct compute_forces.
Qed.

Lemma prepared_ptr data b compute_forces compute_virial out :
  represents data b ->
  compute_edge_data data compute_forces compute_virial = Ok out ->
  holds out keys.BATCH_PTR
    (Long1 match collation b with
           | Some (_, ptr) => ptr
           | None => [0; Z.of_nat (length (positions b))]
           end).
Proof.
  intros (Hpos & _ & Hcol & _) Hout.
  apply compute_edge_data_inv in Hout
    as (pos_t & filled & single & strain & vectors & rg & Hp & Hinfo & ->).
  apply holds_lookup in Hpos as [rgp Hpos].
  rewrite (getitem_Some _ _ _ Hpos) in Hp. injection Hp as <-.
  assert (Hfilled : holds filled keys.BATCH_PTR
            (Long1 match collation b with
                   | Some (_, ptr) => ptr
                   | None => [0; Z.of_nat (length (positions b))]
                   end)).
  { unfold batch_info in Hinfo. destruct (collation b) as [[bt ptr]|].
    - destruct Hcol as [Hbt Hptr]. apply holds_lookup in Hbt as [rgb Hbt].
      rewrite Hbt in Hinfo. simpl in Hinfo.
      apply result_bind_Ok in Hinfo as (m & _ & Hinfo).
      injection Hinfo as <- _. exact Hptr.
    - rewrite Hcol in Hinfo. injection Hinfo as <- _.
      unfold holds. by rewrite lookup_insert_eq. }
  unfold holds in *. do 3 rewrite lookup_insert_ne by done.
  destruct compute_forces; [|done]. by rewrite lookup_insert_ne.
Qed.

(** X6: a batch that comes without [batch] is treated as one structure:
    edge preparation adds [batch] = zeros(N), [ptr] = [0, N] and a zero
    strain of shape (1, 3, 3), and leaves every key it does not write as
    it was. *)
Theorem single_structure_is_filled_in data b compute_forces compute_virial :
  represents data b -> well_formed b -> collation b = None ->
  exists out,
    compute_edge_data data compute_forces compute_virial = Ok out /\
    holds out keys.BATCH (Long1 (replicate (length (positions b)) 0)) /\
    holds out keys.BATCH_PTR (Long1 [0; Z.of_nat (length (positions b))]) /\
    out !! keys.STRAIN = Some (Tensor (Float3 [Mat3.zero]) compute_virial) /\
    (forall k,
        k ∉ [keys.STRAIN; keys.EDGE_VECTOR; keys.EDGE_LENGTH; keys.BATCH;
             keys.BATCH_PTR; keys.POSITIONS] ->
        out !! k = data !! k).
Proof.
  intros Hrep Hwf Hnone.
  destruct (compute_edge_data_spec _ _ compute_forces compute_virial Hrep Hwf)
    as (out & Hout & P).
  pose proof (prepared_ptr _ _ _ _ _ Hrep Hout) as Hptr.
  pose proof (ep_batch _ _ _ _ _ P) as Hb.
  pose proof (ep_strain _ _ _ _ _ P) as Hs.
  unfold structure_index, n_structures in *. rewrite Hnone in *.
  exists out. split_and!; [done|done|done|done|apply P].
Qed.

Lemma single_structure_is_filled_in_witness :
  exists out,
    compute_edge_data (to_dict periodic_pair) true true = Ok out /\
    holds out keys.BATCH (Long1 (replicate (length (positions periodic_pair)) 0)) /\
    holds out keys.BATCH_PTR
      (Long1 [0; Z.of_nat (length (positions periodic_pair))]) /\
    out !! keys.STRAIN = Some (Tensor (Float3 [Mat3.zero]) true) /\
    (forall k,
        k ∉ [keys.STRAIN; keys.EDGE_VECTOR; keys.EDGE_LENGTH; keys.BATCH;
             keys.BATCH_PTR; keys.POSITIONS] ->
        out !! k = to_dict periodic_pair !! k).
Proof.
  apply (single_structure_is_filled_in (to_dict periodic_pair) periodic_pair
           true true).
  - apply represents_to_dict.
  - apply well_formed_periodic_pair.
  - reflexivity.
Defined.

Lemma with_collation_well_formed b :
  well_formed b -> positions b <> [] -> well_formed (with_collation b).
Proof.
  intros Hwf Hne. pose proof (structure_index_length _ Hwf) as Hlen.
  pose proof (structure_index_range _ Hwf) as Hrange.
  assert (Hn : n_structures (with_collation b) = n_structures b).
  { unfold n_structures. simpl. by destruct (collation b) as [[bt ptr]|]. }
  destruct Hwf as [Hwe Hwc Hwp].
  split; simpl; [done| |by rewrite Hn].
  rewrite Hn. split_and!; [done|done|].
  unfold structure_index, n_structures in *.
  destruct (collation b) as [[bt ptr]|]; [by destruct Hwc as (_ & _ & ?)|].
  destruct (positions b); [done|]. simpl. by left.
Qed.

Lemma with_collation_edge_vectors b :
  edge_vectors (with_collation b) = edge_vectors b.
Proof.
  assert (Hn : n_structures (with_collation b) = n_structures b).
  { unfold n_structures. simpl. by destruct (collation b) as [[bt ptr]|]. }
  unfold edge_vectors. simpl. destruct (periodic b) as [[cell offsets]|]; [|done].
  apply zip_with_ext; [|done..]. intros e o. unfold cell_of. by rewrite Hn.
Qed.

Lemma prepared_represents data b compute_forces compute_virial out :
  represents data b -> well_formed b ->
  compute_edge_data data compute_forces compute_virial = Ok out ->
  represents out (with_collation b).
Proof.
  intros Hrep Hwf Hout.
  pose proof (prepared_ptr _ _ _ _ _ Hrep Hout) as Hptr.
  destruct (compute_edge_data_spec _ _ compute_forces compute_virial Hrep Hwf)
    as (out' & Hout' & P).
  rewrite Hout in Hout'. injection Hout' as <-.
  destruct Hrep as (Hpos & Hedge & Hcol & Hper).
  split_and!; simpl.
  - apply P.
  - unfold holds. rewrite (ep_frame _ _ _ _ _ P) by not_listed. exact Hedge.
  - split; [apply P|exact Hptr].
  - unfold holds.
    rewrite (ep_frame _ _ _ _ _ P keys.CELL) by not_listed.
    rewrite (ep_frame _ _ _ _ _ P keys.CELL_OFFSETS) by not_listed.
    exact Hper.
Qed.

(** X7: edge preparation can be run again on the batch it returned, as
    long as the batch has an atom: the second run returns the same edge
    vectors and edge lengths. *)
Theorem edge_preparation_idempotent data b compute_forces compute_virial :
  represents data b -> well_formed b -> positions b <> [] ->
  exists out again,
    compute_edge_data data compute_forces compute_virial = Ok out /\
    compute_edge_data out compute_forces compute_virial = Ok again /\
    tval <$> again !! keys.EDGE_VECTOR = tval <$> out !! keys.EDGE_VECTOR /\
    tval <$> again !! keys.EDGE_LENGTH = tval <$> out !! keys.EDGE_LENGTH.
Proof.
  intros Hrep Hwf Hne.
  destruct (compute_edge_data_spec _ _ compute_forces compute_virial Hrep Hwf)
    as (out & Hout & P).
  pose proof (prepared_represents _ _ _ _ _ Hrep Hwf Hout) as Hrep'.
  pose proof (with_collation_well_formed _ Hwf Hne) as Hwf'.
  destruct (compute_edge_data_spec _ _ compute_forces compute_virial Hrep' Hwf')
    as (again & Hagain & P').
  exists out, again. split_and!; [done|done| |].
  - pose proof (ep_vector _ _ _ _ _ P) as H1.
    pose proof (ep_vector _ _ _ _ _ P') as H2.
    unfold holds in *. by rewrite H1, H2, with_collation_edge_vectors.
  - pose proof (ep_length _ _ _ _ _ P) as H1.
    pose proof (ep_length _ _ _ _ _ P') as H2.
    unfold holds in *. by rewrite H1, H2, with_collation_edge_vectors.
Qed.

Lemma edge_preparation_idempotent_witness :
  exists out again,
    compute_edge_data (to_dict periodic_pair) true true = Ok out /\
    compute_edge_data out true true = Ok again /\
    tval <$> again !! keys.EDGE_VECTOR = tval <$> out !! keys.EDGE_VECTOR /\
    tval <$> again !! keys.EDGE_LENGTH = tval <$> out !! keys.EDGE_LENGTH.
Proof.
  apply (edge_preparation_idempotent (to_dict periodic_pair) periodic_pair
           true true).
  - apply represents_to_dict.
  - apply well_formed_periodic_pair.
  - discriminate.
Defined.

(** X8: a batch that holds an empty [batch] tensor is not prepared: the
    largest structure index of no atom raises.  This is what a batch
    without atoms looks like after a first preparation. *)
Theorem empty_batch_index_raises data compute_forces compute_virial pos_t edge_t rg :
  data !! keys.POSITIONS = Some pos_t ->
  data !! keys.EDGE_INDEX = Some edge_t ->
  data !! keys.BATCH = Some (Tensor (Long1 []) rg) ->
  compute_edge_data data compute_forces compute_virial = Err EmptyReduction.
Proof.
  intros Hpos Hedge Hbatch. unfold compute_edge_data.
  rewrite (getitem_Some _ _ _ Hpos). ok_step.
  rewrite (getitem_Some _ _ _ Hedge). ok_step.
  unfold batch_info. by rewrite Hbatch.
Qed.

Lemma empty_batch_index_raises_witness :
  exists out,
    compute_edge_data
      (to_dict {| positions := []; edge_index := [];
                  collation := None; periodic := None |}) true false = Ok out /\
    compute_edge_data out true false = Err EmptyReduction.
Proof.
  eexists. split; [vm_compute; reflexivity|].
  eapply (empty_batch_index_raises _ true false); vm_compute; reflexivity.
Defined.

(** * What edge preparation needs, and how it fails *)

Lemma traverse_Ok_inv {A B} (f : A -> result B) l r :
  traverse f l = Ok r -> Forall2 (fun x y => f x = Ok y) l r.
Proof.
  revert r. induction l as [|x l IH]; simpl; intros r.
  - intros [= <-]. constructor.
  - intros (y & Hy & H)%result_bind_Ok.
    apply result_bind_Ok in H as (ys & Hys & [= <-]).
    constructor; [done|by apply IH].
Qed.

Lemma index_select_Ok_inv {A} (t : list A) index r :
  Torch.index_select t index = Ok r ->
  Forall (fun i => 0 <= i < Z.of_nat (length t)) index /\
  length r = length index.
Proof.
  intros H%traverse_Ok_inv. split.
  - induction H as [|i y index r Hi _ IH]; constructor; [|done].
    destruct (decide (0 <= i)); [|done].
    destruct (t !! Z.to_nat i) eqn:E; [|done].
    apply lookup_lt_Some in E. lia.
  - symmetry. by eapply Forall2_length.
Qed.

Lemma strain_deformation_length strain batch pos with_cell cell pos' cell' :
  strain_deformation strain batch pos with_cell cell = Ok (pos', cell') ->
  length pos' = length pos.
Proof.
  unfold strain_deformation. cbv zeta.
  intros (expanded & _ & H)%result_bind_Ok.
  apply result_bind_Ok in H as (moved & Hmoved & H).
  apply result_bind_Ok in H as (moved_pos & Hadd & H).
  apply result_bind_Ok in H as (moved_cell & _ & [= <- _]).
  unfold Torch.bmm_rows in Hmoved.
  destruct (decide (length pos = length expanded)) as [Hlen|]; [|done].
  injection Hmoved as <-.
  rewrite broadcast_same in Hadd by (rewrite length_zip_with; lia).
  injection Hadd as <-. rewrite !length_zip_with. lia.
Qed.

Lemma batch_info_frame data pos filled single k :
  batch_info data pos = Ok (filled, single) ->
  k <> keys.BATCH -> k <> keys.BATCH_PTR -> filled !! k = data !! k.
Proof.
  unfold batch_info. intros H Hk1 Hk2.
  destruct (data !! keys.BATCH) as [bt|].
  - apply result_bind_Ok in H as (bl & _ & H).
    apply result_bind_Ok in H as (m & _ & [= <- _]). done.
  - injection H as <- _. by rewrite !lookup_insert_ne.
Qed.

Lemma batch_info_keeps_batch data pos filled single :
  batch_info data pos = Ok (filled, single) ->
  is_Some (data !! keys.BATCH) -> filled = data.
Proof.
  unfold batch_info. intros H [bt Hbt]. rewrite Hbt in H.
  apply result_bind_Ok in H as (bl & _ & H).
  by apply result_bind_Ok in H as (m & _ & [= <- _]).
Qed.

Lemma getitem_None' (data : dict) k :
  data !! k = None -> getitem data k = Err (KeyError k).
Proof. unfold getitem. by intros ->. Qed.

(** X9: edge preparation returns only on a batch that holds positions
    and edges whose indices all name atoms of the batch, that holds [ptr]
    whenever it holds [batch], and that holds [cell_offsets] whenever it
    holds [cell]; on every other batch it raises. *)
Theorem preparation_requires data compute_forces compute_virial out :
  compute_edge_data data compute_forces compute_virial = Ok out ->
  exists pos edges,
    holds data keys.POSITIONS (Float2 pos) /\
    holds data keys.EDGE_INDEX (Long2 edges) /\
    Forall (fun e => (0 <= e.1 < Z.of_nat (length pos)) /\
                     (0 <= e.2 < Z.of_nat (length pos))) edges /\
    (is_Some (data !! keys.BATCH) -> is_Some (data !! keys.BATCH_PTR)) /\
    (is_Some (data !! keys.CELL) -> is_Some (data !! keys.CELL_OFFSETS)).
Proof.
  unfold compute_edge_data. intros H.
  apply result_bind_Ok in H as (pos_t & Hpos & H).
  apply result_bind_Ok in H as (edge_t & Hedge & H).
  apply result_bind_Ok in H as ([filled single] & Hinfo & H).
  apply result_bind_Ok in H as (batch_t & _ & H).
  apply result_bind_Ok in H as (ptr_t & Hptr & H).
  apply result_bind_Ok in H as (cell_t & _ & H).
  cbv zeta in H.
  apply result_bind_Ok in H as (strain & _ & H).
  apply result_bind_Ok in H as (pos & Hp & H).
  apply result_bind_Ok in H as (cell & _ & H).
  apply result_bind_Ok in H as (batch & _ & H).
  apply result_bind_Ok in H as ([[[pos' cell'] pg] cg] & Hdef & H).
  apply result_bind_Ok in H as (edges & He & H).
  apply result_bind_Ok in H as (center & Hc & H).
  apply result_bind_Ok in H as (neighbor & Hn & H).
  apply result_bind_Ok in H as (vc & Hvc & H).
  apply result_bind_Ok in H as (vn & Hvn & H).
  apply result_bind_Ok in H as (vectors & _ & H).
  apply result_bind_Ok in H as ([shifted rg] & Hshift & _).
  unfold getitem in Hpos, Hedge, Hptr.
  destruct (data !! keys.POSITIONS) as [pt|] eqn:Epos; [|done].
  destruct (data !! keys.EDGE_INDEX) as [et|] eqn:Eedge; [|done].
  injection Hpos as ->. injection Hedge as ->.
  assert (Hpv : tval pos_t = Float2 pos).
  { destruct compute_forces; simpl in Hp;
      destruct (tval pos_t); try done; by injection Hp as ->. }
  assert (Hev : tval edge_t = Float2 [] -> False) by (by destruct (tval edge_t)).
  assert (Hee : tval edge_t = Long2 edges).
  { destruct (tval edge_t); try done. by injection He as ->. }
  assert (Hlen : length pos' = length pos).
  { destruct compute_virial.
    - apply result_bind_Ok in Hdef as ([p c] & Hsd & [= <- _ _ _]).
      by eapply strain_deformation_length.
    - by injection Hdef as <- _ _ _. }
  injection Hc as <-. injection Hn as <-.
  apply index_select_Ok_inv in Hvc as [Hvc _].
  apply index_select_Ok_inv in Hvn as [Hvn _].
  rewrite Hlen in Hvc, Hvn.
  exists pos, edges. unfold holds. rewrite Epos, Eedge. simpl.
  rewrite Hpv, Hee. split_and!; [done|done| | |].
  - apply Forall_fmap in Hvc, Hvn. apply Forall_forall. intros e Hin.
    rewrite Forall_forall in Hvc, Hvn. split; [by apply Hvc|by apply Hvn].
  - intros Hb. rewrite (batch_info_keeps_batch _ _ _ _ Hinfo Hb) in Hptr.
    destruct (data !! keys.BATCH_PTR); [by eexists|done].
  - intros Hcell.
    rewrite (batch_info_frame _ _ _ _ keys.CELL Hinfo) in Hshift by done.
    rewrite bool_decide_eq_true_2 in Hshift by done.
    apply result_bind_Ok in Hshift as (offsets_t & Hoff & _).
    unfold getitem in Hoff.
    assert (Hlook : forall (d : dict) t,
               (if compute_forces then <[keys.POSITIONS := t]> d else d)
                 !! keys.CELL_OFFSETS = d !! keys.CELL_OFFSETS).
    { intros d t. destruct compute_forces; [|done]. by rewrite lookup_insert_ne. }
    rewrite Hlook in Hoff.
    rewrite (batch_info_frame _ _ _ _ keys.CELL_OFFSETS Hinfo) in Hoff by done.
    destruct (data !! keys.CELL_OFFSETS); [by eexists|done].
Qed.

Lemma preparation_requires_witness :
  exists out pos edges,
    compute_edge_data (to_dict collated_pair) true true = Ok out /\
    holds (to_dict collated_pair) keys.POSITIONS (Float2 pos) /\
    holds (to_dict collated_pair) keys.EDGE_INDEX (Long2 edges) /\
    Forall (fun e => (0 <= e.1 < Z.of_nat (length pos)) /\
                     (0 <= e.2 < Z.of_nat (length pos))) edges /\
    (is_Some (to_dict collated_pair !! keys.BATCH) ->
     is_Some (to_dict collated_pair !! keys.BATCH_PTR)) /\
    (is_Some (to_dict collated_pair !! keys.CELL) ->
     is_Some (to_dict collated_pair !! keys.CELL_OFFSETS)).
Proof.
  destruct (compute_edge_data_spec _ _ true true
              (represents_to_dict collated_pair) well_formed_collated_pair)
    as (out & Hout & _).
  exists out.
  destruct (preparation_requires _ _ _ _ Hout) as (pos & edges & H).
  exists pos, edges. split; [exact Hout|exact H].
Defined.

Lemma batch_info_without_offsets data pos filled single :
  batch_info data pos = Ok (filled, single) ->
  batch_info (delete keys.CELL_OFFSETS data) pos
  = Ok (delete keys.CELL_OFFSETS filled, single).
Proof.
  unfold batch_info. intros H. rewrite lookup_delete_ne by done.
  destruct (data !! keys.BATCH) as [bt|].
  - apply result_bind_Ok in H as (bl & Hbl & H).
    apply result_bind_Ok in H as (m & Hm & [= <- <-]).
    rewrite Hbl. ok_step. by rewrite Hm.
  - injection H as <- <-. by rewrite !delete_insert_ne.
Qed.

(** X10: a periodic batch that lacks [cell_offsets] is not prepared:
    the lookup of the offsets raises [KeyError] naming the key. *)
Theorem cell_without_offsets_raises data b compute_forces compute_virial :
  represents data b -> well_formed b -> is_Some (periodic b) ->
  compute_edge_data (delete keys.CELL_OFFSETS data) compute_forces compute_virial
  = Err (KeyError keys.CELL_OFFSETS).
Proof.
  intros Hrep Hwf [[cell offsets] Eper].
  destruct (batch_info_spec _ _ Hrep Hwf)
    as (filled & ptr_t & Hinfo & Hbatch & Hptr & Hnum & Hframe).
  apply batch_info_without_offsets in Hinfo.
  pose proof (n_structures_pos _ Hwf) as Hn.
  pose proof (structure_index_length _ Hwf) as Hblen.
  pose proof (lift_index_range _ _ (structure_index_range _ Hwf)) as Hbrange.
  pose proof (centers_in_range _ Hwf) as Hcenters.
  pose proof (neighbors_in_range _ Hwf) as Hneighbors.
  destruct Hrep as (Hpos & Hedge & Hcol & Hper).
  pose proof (wf_periodic _ Hwf) as Hwp. rewrite Eper in Hper, Hwp.
  destruct Hper as [Hcell _]. destruct Hwp as [Hclen _].
  apply holds_lookup in Hpos as [rgp Hpos].
  apply holds_lookup in Hedge as [rge Hedge].
  apply holds_lookup in Hbatch as [rgb Hbatch].
  apply holds_lookup in Hcell as [rgc Hcell].
  assert (Hz : Torch.zeros3 (n_structures b)
               = Ok (replicate (Z.to_nat (n_structures b)) Mat3.zero)).
  { unfold Torch.zeros3. destruct (decide _); [lia|done]. }
  unfold compute_edge_data.
  rewrite (getitem_Some _ keys.POSITIONS _)
    by (rewrite lookup_delete_ne by done; exact Hpos).
  ok_step.
  rewrite (getitem_Some _ keys.EDGE_INDEX _)
    by (rewrite lookup_delete_ne by done; exact Hedge).
  ok_step. rewrite Hinfo. ok_step.
  rewrite (getitem_Some _ keys.BATCH _)
    by (rewrite lookup_delete_ne by done; exact Hbatch).
  ok_step.
  rewrite (getitem_Some _ keys.BATCH_PTR _)
    by (rewrite lookup_delete_ne by done; exact Hptr).
  ok_step. rewrite Hnum, Hz.
  rewrite (lookup_delete_ne filled) by done.
  rewrite (Hframe keys.CELL) by done. rewrite Hcell.
  rewrite bool_decide_eq_true_2 by done.
  rewrite (getitem_Some _ keys.CELL _)
    by (rewrite lookup_delete_ne by done; by rewrite Hframe by done).
  assert (Hdef : strain_deformation (replicate (Z.to_nat (n_structures b)) Mat3.zero)
                   (structure_index b) (positions b) true cell
                 = Ok (positions b, cell)).
  { apply strain_deformation_zero; [done..|]. intros _. lia. }
  assert (Hmissing : forall t,
             getitem (if compute_forces
                      then <[keys.POSITIONS := t]> (delete keys.CELL_OFFSETS filled)
                      else delete keys.CELL_OFFSETS filled) keys.CELL_OFFSETS
             = Err (KeyError keys.CELL_OFFSETS)).
  { intros t. apply getitem_None'. destruct compute_forces.
    - rewrite lookup_insert_ne by done. apply lookup_delete_eq.
    - apply lookup_delete_eq. }
  destruct compute_forces, compute_virial; ok_steps; rewrite ?Hdef; ok_steps.
  all: rewrite !index_select_Ok by done; ok_steps.
  all: rewrite broadcast_same by (by rewrite !length_fmap); ok_steps.
  all: cbv beta iota in Hmissing; by rewrite Hmissing.
Qed.

Lemma cell_without_offsets_raises_witness :
  compute_edge_data (delete keys.CELL_OFFSETS (to_dict periodic_pair)) true true
  = Err (KeyError keys.CELL_OFFSETS).
Proof.
  apply (cell_without_offsets_raises (to_dict periodic_pair) periodic_pair
           true true).
  - apply represents_to_dict.
  - apply well_formed_periodic_pair.
  - eexists; reflexivity.
Defined.

(** X11: the first of the fields [pos], [edge_index] and [ptr] that a
    batch lacks is reported by a [KeyError] naming it; [ptr] is needed
    only by a batch that holds [batch]. *)
Theorem missing_field_raises data compute_forces compute_virial :
  (data !! keys.POSITIONS = None ->
   compute_edge_data data compute_forces compute_virial
   = Err (KeyError keys.POSITIONS)) /\
  (is_Some (data !! keys.POSITIONS) -> data !! keys.EDGE_INDEX = None ->
   compute_edge_data data compute_forces compute_virial
   = Err (KeyError keys.EDGE_INDEX)) /\
  (forall x bt rg,
      is_Some (data !! keys.POSITIONS) -> is_Some (data !! keys.EDGE_INDEX) ->
      data !! keys.BATCH = Some (Tensor (Long1 (x :: bt)) rg) ->
      data !! keys.BATCH_PTR = None ->
      compute_edge_data data compute_forces compute_virial
      = Err (KeyError keys.BATCH_PTR)).
Proof.
  unfold compute_edge_data. split_and!.
  - intros Hpos. by rewrite (getitem_None' _ _ Hpos).
  - intros [pos_t Hpos] Hedge.
    rewrite (getitem_Some _ _ _ Hpos). ok_step.
    by rewrite (getitem_None' _ _ Hedge).
  - intros x bt rg [pos_t Hpos] [edge_t Hedge] Hbatch Hptr.
    rewrite (getitem_Some _ _ _ Hpos). ok_step.
    rewrite (getitem_Some _ _ _ Hedge). ok_step.
    unfold batch_info. rewrite Hbatch. simpl.
    rewrite (getitem_Some _ _ _ Hbatch). ok_step.
    by rewrite (getitem_None' _ _ Hptr).
Qed.

Lemma missing_field_raises_witness :
  compute_edge_data (∅ : dict) true false = Err (KeyError keys.POSITIONS) /\
  compute_edge_data (delete keys.EDGE_INDEX (to_dict periodic_pair)) true false
  = Err (KeyError keys.EDGE_INDEX) /\
  compute_edge_data (delete keys.BATCH_PTR (to_dict collated_pair)) true false
  = Err (KeyError keys.BATCH_PTR).
Proof.
  split_and!.
  - apply (proj1 (missing_field_raises ∅ true false)). reflexivity.
  - apply (proj1 (proj2 (missing_field_raises
                           (delete keys.EDGE_INDEX (to_dict periodic_pair))
                           true false))).
    + eexists. vm_compute. reflexivity.
    + vm_compute. reflexivity.
  - eapply (proj2 (proj2 (missing_field_raises
                            (delete keys.BATCH_PTR (to_dict collated_pair))
                            true false))).
    + eexists. vm_compute. reflexivity.
    + eexists. vm_compute. reflexivity.
    + vm_compute. reflexivity.
    + vm_compute. reflexivity.
Defined.

(** * Further properties of the property engine *)

Lemma add_shape a b c : Autograd.add a b = Ok c -> Autograd.shape c = Autograd.shape b.
Proof.
  unfold Autograd.add, Autograd.zip_same.
  destruct a as [x|x|x|x|x], b as [y|y|y|y|y]; try done; simpl;
    destruct (decide (length x = length y)) as [Hlen|]; simpl; try done;
    intros [= <-]; simpl; rewrite length_zip_with; do 2 f_equal; lia.
Qed.

Lemma vjp_shape zero w J v :
  Autograd.vjp zero w J = Ok v -> Autograd.shape v = Autograd.shape zero.
Proof.
  revert w v. induction J as [|row J IH]; intros [|k w] v; simpl; try done.
  - by intros [= <-].
  - intros (rest & Hrest & Hadd)%result_bind_Ok.
    apply add_shape in Hadd. rewrite Hadd. by eapply IH.
Qed.

Lemma shape_zeros_like v : Autograd.shape (Torch.zeros_like v) = Autograd.shape v.
Proof. destruct v; simpl; by rewrite length_replicate. Qed.

Lemma shape_scale k v : Autograd.shape (Torch.scale k v) = Autograd.shape v.
Proof. destruct v; simpl; by rewrite ?length_fmap. Qed.

Lemma input_grad_shape g output grad_output create_graph inp t :
  Autograd.input_grad g output grad_output create_graph false inp = Ok (Some t) ->
  Autograd.shape (tval t) = Autograd.shape (tval inp) /\
  requires_grad t = create_graph && differentiable g output inp.
Proof.
  unfold Autograd.input_grad. destruct (g output inp) as [J|]; [|done].
  intros (v & Hv & [= <-])%result_bind_Ok. simpl. split; [|done].
  apply vjp_shape in Hv. by rewrite Hv, shape_zeros_like.
Qed.

(** X12: forces that are returned have the shape of the positions, and
    a virial the shape of the strain. *)
Theorem derivatives_have_input_shape g energy pos strain training st :
  (forall f st',
      compute_forces_only g energy pos training st = Ok (f, st') ->
      Autograd.shape (tval f) = Autograd.shape (tval pos)) /\
  (forall v st',
      compute_virial_only g energy strain training st = Ok (v, st') ->
      Autograd.shape (tval v) = Autograd.shape (tval strain)) /\
  (forall f v st',
      compute_forces_and_virial g energy pos strain training st
      = Ok ((f, v), st') ->
      Autograd.shape (tval f) = Autograd.shape (tval pos) /\
      Autograd.shape (tval v) = Autograd.shape (tval strain)).
Proof.
  split_and!.
  - intros f st' (_ & _ & _ & t & Ht & ->)%compute_forces_only_Ok.
    apply input_grad_shape in Ht as [Hs Hr]. simpl.
    by rewrite shape_scale.
  - intros v st' (_ & _ & _ & t & Ht & ->)%compute_virial_only_Ok.
    apply input_grad_shape in Ht as [Hs Hr]. simpl.
    by rewrite shape_scale.
  - intros f v st'
      (_ & _ & _ & _ & t & u & Ht & Hu & -> & ->)%compute_forces_and_virial_Ok.
    apply input_grad_shape in Ht as [Hs Hr].
    apply input_grad_shape in Hu as [Hs' Hr']. simpl.
    by rewrite !shape_scale.
Qed.

Lemma derivatives_have_input_shape_witness :
  exists f v st',
    compute_forces_and_virial sample_graph sample_energy sample_pos
      sample_strain true [] = Ok ((f, v), st') /\
    Autograd.shape (tval f) = Autograd.shape (tval sample_pos) /\
    Autograd.shape (tval v) = Autograd.shape (tval sample_strain).
Proof.
  eexists _, _, _. split; [vm_compute; reflexivity|].
  eapply (proj2 (proj2 (derivatives_have_input_shape sample_graph sample_energy
                          sample_pos sample_strain true []))).
  vm_compute; reflexivity.
Defined.

Lemma prepared_positions_unflagged data compute_virial out pos_t :
  data !! keys.POSITIONS = Some pos_t ->
  compute_edge_data data false compute_virial = Ok out ->
  out !! keys.POSITIONS = Some pos_t.
Proof.
  intros Hpos Hout.
  apply compute_edge_data_inv in Hout
    as (pt & filled & single & strain & vectors & rg & Hp & Hinfo & ->).
  do 3 rewrite lookup_insert_ne by done.
  by rewrite (batch_info_frame _ _ _ _ keys.POSITIONS Hinfo).
Qed.

(** X13: the flags of the two steps must agree: positions that were
    prepared without [compute_forces] do not require grad, and deriving
    forces from them is refused by the engine. *)
Theorem forces_need_prepared_positions g data b compute_virial energy training
    extras st :
  represents data b -> well_formed b ->
  data !! keys.POSITIONS = Some (Tensor (Float2 (positions b)) false) ->
  requires_grad energy = true ->
  exists prepared,
    compute_edge_data data false compute_virial = Ok prepared /\
    compute_properties g (<[keys.TOTAL_ENERGY := energy]> prepared)
      true false training extras st = Err InputNoGrad.
Proof.
  intros Hrep Hwf Hpos He.
  destruct (compute_edge_data_spec _ _ false compute_virial Hrep Hwf)
    as (prepared & Hout & _).
  exists prepared. split; [done|].
  pose proof (prepared_positions_unflagged _ _ _ _ Hpos Hout) as Hp.
  unfold compute_properties. simpl.
  unfold mbind at 1, M_bind. unfold mbind at 1, M_bind.
  unfold getitem. rewrite lookup_insert_eq. simpl.
  unfold mbind at 1, M_bind. rewrite lookup_insert_ne by done. rewrite Hp. simpl.
  unfold mbind at 1, M_bind.
  unfold compute_forces_only, mbind, M_bind, Autograd.grad.
  by rewrite He.
Qed.

Lemma forces_need_prepared_positions_witness :
  exists prepared,
    compute_edge_data (to_dict collated_pair) false true = Ok prepared /\
    compute_properties sample_graph
      (<[keys.TOTAL_ENERGY := sample_energy]> prepared)
      true false true None [] = Err InputNoGrad.
Proof.
  apply (forces_need_prepared_positions sample_graph (to_dict collated_pair)
           collated_pair true sample_energy true None []).
  - apply represents_to_dict.
  - apply well_formed_collated_pair.
  - reflexivity.
  - reflexivity.
Defined.

(** X14: a call of property derivation that returns has run no backward
    pass when nothing is requested and exactly one otherwise, over one
    input or over both, with the graph retained and the derivative
    differentiable exactly in training mode. *)
Theorem one_backward_pass_at_most g data compute_forces compute_virial training
    extras st results st' :
  compute_properties g data compute_forces compute_virial training extras st
  = Ok (results, st') ->
  st' = ((if compute_forces && compute_virial
          then [BackwardCall 2 training training]
          else if compute_forces || compute_virial
               then [BackwardCall 1 training training]
               else []) ++ st)%list.
Proof.
  unfold compute_properties. intros (base & st1 & Hbase & Hrest)%M_bind_Ok.
  assert (Hst : st' = st1).
  { destruct extras as [ks|].
    - apply M_bind_Ok in Hrest as (items & st2 & Hitems & Hret).
      apply lift_Ok in Hitems as [_ ->]. by apply mret_Ok in Hret as [_ ->].
    - by apply mret_Ok in Hrest as [_ ->]. }
  subst st'. destruct compute_forces, compute_virial; simpl in *.
  - apply M_bind_Ok in Hbase as (e & s1 & He & Hbase).
    apply lift_Ok in He as [_ ->].
    apply M_bind_Ok in Hbase as (p & s2 & Hp & Hbase).
    apply lift_Ok in Hp as [_ ->].
    apply M_bind_Ok in Hbase as (s & s3 & Hs & Hbase).
    apply lift_Ok in Hs as [_ ->].
    apply M_bind_Ok in Hbase as ([f v] & s4 & Hfv & Hbase).
    apply mret_Ok in Hbase as [_ ->].
    by apply compute_forces_and_virial_Ok in Hfv as (_ & _ & _ & -> & _).
  - apply M_bind_Ok in Hbase as (e & s1 & He & Hbase).
    apply lift_Ok in He as [_ ->].
    apply M_bind_Ok in Hbase as (p & s2 & Hp & Hbase).
    apply lift_Ok in Hp as [_ ->].
    apply M_bind_Ok in Hbase as (f & s4 & Hf & Hbase).
    apply mret_Ok in Hbase as [_ ->].
    by apply compute_forces_only_Ok in Hf as (_ & _ & -> & _).
  - apply M_bind_Ok in Hbase as (e & s1 & He & Hbase).
    apply lift_Ok in He as [_ ->].
    apply M_bind_Ok in Hbase as (p & s2 & Hp & Hbase).
    apply lift_Ok in Hp as [_ ->].
    apply M_bind_Ok in Hbase as (f & s4 & Hf & Hbase).
    apply mret_Ok in Hbase as [_ ->].
    by apply compute_virial_only_Ok in Hf as (_ & _ & -> & _).
  - by apply mret_Ok in Hbase as [_ ->].
Qed.

Lemma one_backward_pass_at_most_witness :
  exists results st',
    compute_properties sample_graph evaluated_batch true false false
      (Some [keys.TOTAL_ENERGY]) [] = Ok (results, st') /\
    st' = ([BackwardCall 1 false false] ++ [])%list.
Proof.
  eexists _, _. split; [vm_compute; reflexivity|].
  eapply (one_backward_pass_at_most sample_graph evaluated_batch true false
            false (Some [keys.TOTAL_ENERGY]) []).
  vm_compute; reflexivity.
Defined.

(** * Further properties of property derivation and of the shell *)

Lemma items_of_first_missing data ks1 k ks2 :
  Forall (fun k' => is_Some (data !! k')) ks1 -> data !! k = None ->
  items_of data (ks1 ++ k :: ks2)%list = Err (KeyError k).
Proof.
  intros Hall Hk. unfold items_of.
  induction Hall as [|k' ks1 [t Ht] _ IH]; simpl.
  - by rewrite (getitem_None' _ _ Hk).
  - rewrite (getitem_Some _ _ _ Ht). ok_step. by rewrite IH.
Qed.

(** X15: property derivation reads the energy only when a derivative is
    requested, and then a batch without it raises [KeyError]; an extra
    property that the batch lacks raises [KeyError] naming the first such
    key. *)
Theorem missing_property_raises g data compute_forces compute_virial training st :
  (compute_forces || compute_virial = true ->
   data !! keys.TOTAL_ENERGY = None ->
   forall extras,
     compute_properties g data compute_forces compute_virial training extras st
     = Err (KeyError keys.TOTAL_ENERGY)) /\
  (compute_forces = false -> compute_virial = false ->
   forall ks1 k ks2,
     Forall (fun k' => is_Some (data !! k')) ks1 -> data !! k = None ->
     compute_properties g data compute_forces compute_virial training
       (Some (ks1 ++ k :: ks2)%list) st = Err (KeyError k)).
Proof.
  split.
  - intros Hflag He extras. unfold compute_properties.
    destruct compute_forces, compute_virial; try done; simpl;
      unfold mbind at 1, M_bind; unfold mbind at 1, M_bind;
      by rewrite (getitem_None' _ _ He).
  - intros -> -> ks1 k ks2 Hall Hk. unfold compute_properties. simpl.
    unfold mbind at 1, M_bind. simpl. unfold mbind at 1, M_bind.
    by rewrite (items_of_first_missing _ _ _ _ Hall Hk).
Qed.

Lemma missing_property_raises_witness :
  compute_properties sample_graph (∅ : dict) true false true None []
  = Err (KeyError keys.TOTAL_ENERGY) /\
  compute_properties sample_graph evaluated_batch false false true
    (Some ([keys.TOTAL_ENERGY] ++ "atomic_charges" :: [keys.POSITIONS])%list) []
  = Err (KeyError "atomic_charges").
Proof.
  split.
  - apply (proj1 (missing_property_raises sample_graph ∅ true false true []));
      reflexivity.
  - apply (proj2 (missing_property_raises sample_graph evaluated_batch
                    false false true [])); try reflexivity.
    constructor; [|constructor]. eexists. vm_compute. reflexivity.
Defined.

Lemma run_modules_app xs ys data :
  run_modules (xs ++ ys) data = run_modules xs data ≫= run_modules ys.
Proof.
  revert data. induction xs as [|x xs IH]; intros data; simpl; [done|].
  destruct (x data) as [d|e]; simpl; [apply IH|done].
Qed.

(** X16: the forward entry point raises what edge preparation raises,
    and what the first failing stage raises: the stages after it do not
    run and there is no result. *)
Theorem forward_propagates_failure g self data compute_forces compute_virial st e :
  (compute_edge_data data compute_forces compute_virial = Err e ->
   forward g self data compute_forces compute_virial st = Err e) /\
  (forall prepared before stage after reached,
      compute_edge_data data compute_forces compute_virial = Ok prepared ->
      module_list self = (before ++ stage :: after)%list ->
      run_modules before prepared = Ok reached ->
      stage reached = Err e ->
      forward g self data compute_forces compute_virial st = Err e).
Proof.
  unfold forward. split.
  - intros H. unfold mbind at 1, M_bind. by rewrite H.
  - intros prepared before stage after reached Hprep Hlist Hrun Hstage.
    unfold mbind at 1, M_bind. rewrite Hprep. simpl.
    unfold mbind at 1, M_bind.
    rewrite Hlist, run_modules_app, Hrun. simpl. by rewrite Hstage.
Qed.

Lemma forward_propagates_failure_witness :
  forward sample_graph
    {| module_list := [energy_stage; fun _ => Err ShapeError; energy_stage];
       extra_properties := []; training := true |}
    (to_dict collated_pair) true false [] = Err ShapeError.
Proof.
  destruct (compute_edge_data_spec _ _ true false
              (represents_to_dict collated_pair) well_formed_collated_pair)
    as (prepared & Hprep & _).
  eapply (proj2 (forward_propagates_failure sample_graph _ _ true false []
                   ShapeError) prepared [energy_stage] _ [energy_stage]).
  - exact Hprep.
  - reflexivity.
  - reflexivity.
  - reflexivity.
Defined.

Lemma forces_from_jacobian (g : graph) energy pos J total training st :
  requires_grad energy = true -> requires_grad pos = true ->
  g energy pos = Some J ->
  length J = Torch.numel (tval energy) ->
  Autograd.row_sum (Torch.zeros_like (tval pos)) J = Ok total ->
  compute_forces_only g energy pos training st
  = Ok (Tensor (Torch.scale (-1) total)
          (training && differentiable g energy pos),
        BackwardCall 1 training training :: st).
Proof.
  intros He Hp Hg Hlen Hsum.
  apply compute_forces_only_Ok. split_and!; try done.
  exists (Tensor total (training && differentiable g energy pos)).
  split; [|reflexivity].
  unfold Autograd.input_grad.
  by rewrite Hg, flat_ones_like, <- Hlen, vjp_ones, Hsum.
Qed.

(** X17: the forward entry point, end to end.  On a well-formed batch
    whose stages leave the prepared positions in place and write an
    energy that depends on them, a forces request returns the declared
    extra properties on top of the forces, whose value is minus the sum
    of the Jacobian rows of the energy with respect to the positions of
    the batch; one backward pass is recorded. *)
Theorem forward_returns_forces (g : graph) self data b prepared reached energy
    J total items st :
  represents data b -> well_formed b ->
  compute_edge_data data true false = Ok prepared ->
  run_modules (module_list self) prepared = Ok reached ->
  reached !! keys.POSITIONS = prepared !! keys.POSITIONS ->
  reached !! keys.TOTAL_ENERGY = Some energy ->
  requires_grad energy = true ->
  g energy (Tensor (Float2 (positions b)) true) = Some J ->
  length J = Torch.numel (tval energy) ->
  Autograd.row_sum (Torch.zeros_like (Float2 (positions b))) J = Ok total ->
  items_of reached (extra_properties self) = Ok items ->
  exists forces,
    forward g self data true false st
    = Ok (dict_update (<[keys.FORCES := forces]> ∅) items,
          BackwardCall 1 (training self) (training self) :: st) /\
    tval forces = Torch.scale (-1) total.
Proof.
  intros Hrep Hwf Hprep Hrun Hpos He Hge Hg Hlen Hsum Hitems.
  destruct (compute_edge_data_spec _ _ true false Hrep Hwf)
    as (out & Hout & Hspec).
  rewrite Hprep in Hout. injection Hout as <-.
  assert (Hp : reached !! keys.POSITIONS
               = Some (Tensor (Float2 (positions b)) true)).
  { rewrite Hpos.
    pose proof (ep_positions _ _ _ _ _ Hspec) as Hv.
    pose proof (ep_positions_grad _ _ _ _ _ Hspec eq_refl) as Hf.
    unfold holds in Hv.
    destruct (prepared !! keys.POSITIONS) as [[v f]|]; simpl in *; [|done].
    by injection Hv as ->; injection Hf as ->. }
  exists (Tensor (Torch.scale (-1) total)
            (training self
             && differentiable g energy (Tensor (Float2 (positions b)) true))).
  split; [|reflexivity].
  unfold forward. unfold mbind at 1, M_bind. unfold lift at 1.
  rewrite Hprep. simpl. unfold mbind at 1, M_bind. unfold lift at 1.
  rewrite Hrun. simpl.
  unfold compute_properties. simpl.
  unfold mbind at 1, M_bind. unfold mbind at 1, M_bind. unfold lift at 1.
  rewrite (getitem_Some _ _ _ He). simpl.
  unfold mbind at 1, M_bind. unfold lift at 1.
  rewrite (getitem_Some _ _ _ Hp). simpl.
  unfold mbind at 1, M_bind.
  rewrite (forces_from_jacobian g energy
             (Tensor (Float2 (positions b)) true) J total (training self) st
             Hge eq_refl Hg Hlen Hsum). simpl.
  unfold mbind at 1, M_bind. unfold lift at 1. rewrite Hitems. reflexivity.
Qed.

Lemma forward_returns_forces_witness :
  exists total forces,
    forward sample_graph declared_energy_model (to_dict collated_pair)
      true false []
    = Ok (dict_update (<[keys.FORCES := forces]> ∅)
            [(keys.TOTAL_ENERGY, sample_energy)],
          [BackwardCall 1 true true]) /\
    tval forces = Torch.scale (-1) total.
Proof.
  eexists.
  eapply (forward_returns_forces sample_graph declared_energy_model
            (to_dict collated_pair) collated_pair _ _ sample_energy).
  - apply represents_to_dict.
  - apply well_formed_collated_pair.
  - vm_compute; reflexivity.
  - vm_compute; reflexivity.
  - vm_compute; reflexivity.
  - vm_compute; reflexivity.
  - reflexivity.
  - reflexivity.
  - reflexivity.
  - vm_compute; reflexivity.
  - vm_compute; reflexivity.
Defined.

(** * Structures of a batch do not interact *)

Lemma ptr_of_length b :
  well_formed b -> Z.of_nat (length (ptr_of b)) = n_structures b + 1.
Proof.
  intros Hwf. pose proof (n_structures_pos b Hwf) as Hpos.
  unfold ptr_of, n_structures in *.
  destruct (collation b) as [[bt ptr]|]; simpl; lia.
Qed.

Lemma join_batches_n_structures b1 b2 :
  well_formed b1 -> well_formed b2 ->
  n_structures (join_batches b1 b2) = n_structures b1 + n_structures b2.
Proof.
  intros Hwf1 Hwf2.
  pose proof (ptr_of_length b1 Hwf1) as H1.
  pose proof (ptr_of_length b2 Hwf2) as H2.
  pose proof (n_structures_pos b2 Hwf2) as Hpos.
  unfold n_structures at 1. simpl.
  rewrite length_app, length_fmap, length_tl. lia.
Qed.

Lemma at_index_app_l {A} `{Inhabited A} (t1 t2 : list A) i :
  0 <= i < Z.of_nat (length t1) -> at_index (t1 ++ t2)%list i = at_index t1 i.
Proof. intros Hi. unfold at_index. apply lookup_total_app_l. lia. Qed.

Lemma at_index_app_r {A} `{Inhabited A} (t1 t2 : list A) i :
  0 <= i -> at_index (t1 ++ t2)%list (i + Z.of_nat (length t1)) = at_index t2 i.
Proof.
  intros Hi. unfold at_index. rewrite lookup_total_app_r by lia.
  f_equal. lia.
Qed.

Lemma join_batches_well_formed b1 b2 :
  well_formed b1 -> well_formed b2 ->
  (is_Some (periodic b1) <-> is_Some (periodic b2)) ->
  0 < n_atoms b2 ->
  well_formed (join_batches b1 b2).
Proof.
  intros Hwf1 Hwf2 Hper Hne.
  pose proof (join_batches_n_structures b1 b2 Hwf1 Hwf2) as Hn.
  pose proof (n_structures_pos b1 Hwf1) as Hpos1.
  pose proof (n_structures_pos b2 Hwf2) as Hpos2.
  pose proof (structure_index_length b1 Hwf1) as Hl1.
  pose proof (structure_index_length b2 Hwf2) as Hl2.
  pose proof (structure_index_range b1 Hwf1) as Hr1.
  pose proof (structure_index_range b2 Hwf2) as Hr2.
  pose proof Hwf1 as [He1 Hc1 Hp1]. pose proof Hwf2 as [He2 Hc2 Hp2].
  split.
  - unfold n_atoms in *. simpl. rewrite length_app.
    apply Forall_app. split.
    + eapply Forall_impl; [exact He1|]. intros e [? ?]. simpl in *. lia.
    + apply Forall_fmap. eapply Forall_impl; [exact He2|].
      intros e [? ?]. unfold compose, n_atoms. simpl in *. lia.
  - simpl. rewrite Hn. split_and!.
    + rewrite !length_app, length_fmap. lia.
    + apply Forall_app. split.
      * eapply Forall_impl; [exact Hr1|]. intros s ?. simpl in *. lia.
      * apply Forall_fmap. eapply Forall_impl; [exact Hr2|].
        intros s ?. unfold compose. simpl in *. lia.
    + apply elem_of_app. right. apply list_elem_of_fmap.
      exists (n_structures b2 - 1). split; [lia|].
      unfold structure_index, n_structures, n_atoms in *.
      destruct (collation b2) as [[bt ptr]|]; [by destruct Hc2 as (_ & _ & ?)|].
      destruct (positions b2); simpl in *; [lia|]. apply list_elem_of_here.
  - rewrite Hn. simpl.
    destruct (periodic b1) as [[c1 o1]|], (periodic b2) as [[c2 o2]|]; try done.
    destruct Hp1 as [Hcl1 Hol1], Hp2 as [Hcl2 Hol2].
    rewrite !length_app, length_fmap. split; lia.
Qed.

Lemma single_structure_index b n :
  well_formed b -> n_structures b = 1 -> 0 <= n < n_atoms b ->
  at_index (structure_index b) n = 0.
Proof.
  intros Hwf H1 Hn.
  pose proof (structure_index_length b Hwf) as Hl.
  pose proof (structure_index_range b Hwf) as Hr.
  unfold n_atoms in Hn.
  rewrite Forall_forall in Hr.
  assert (Hin : at_index (structure_index b) n ∈ structure_index b).
  { eapply list_elem_of_lookup_2. apply at_index_lookup. lia. }
  specialize (Hr _ Hin). simpl in Hr. lia.
Qed.

Lemma join_batches_cell_l b1 b2 c1 c2 n :
  well_formed b1 -> well_formed b2 ->
  Z.of_nat (length c1) = n_structures b1 ->
  0 <= n < n_atoms b1 ->
  cell_of (join_batches b1 b2) (c1 ++ c2)%list n = cell_of b1 c1 n.
Proof.
  intros Hwf1 Hwf2 Hc Hn.
  pose proof (join_batches_n_structures b1 b2 Hwf1 Hwf2) as Hns.
  pose proof (n_structures_pos b1 Hwf1) as Hpos1.
  pose proof (n_structures_pos b2 Hwf2) as Hpos2.
  pose proof (structure_index_length b1 Hwf1) as Hl1.
  pose proof (structure_index_range b1 Hwf1) as Hr1.
  unfold n_atoms in Hn.
  assert (Hin : 0 <= at_index (structure_index b1) n < n_structures b1).
  { rewrite Forall_forall in Hr1. apply Hr1.
    eapply list_elem_of_lookup_2. apply at_index_lookup. lia. }
  unfold cell_of. rewrite Hns.
  destruct (decide (n_structures b1 + n_structures b2 = 1)) as [|_]; [lia|].
  unfold structure_index at 1. simpl.
  rewrite (at_index_app_l (structure_index b1)) by lia.
  rewrite (at_index_app_l c1) by lia.
  destruct (decide (n_structures b1 = 1)) as [H1|]; [|done].
  f_equal. apply single_structure_index; unfold n_atoms; done || lia.
Qed.

Lemma join_batches_cell_r b1 b2 c1 c2 n :
  well_formed b1 -> well_formed b2 ->
  Z.of_nat (length c1) = n_structures b1 ->
  Z.of_nat (length c2) = n_structures b2 ->
  0 <= n < n_atoms b2 ->
  cell_of (join_batches b1 b2) (c1 ++ c2)%list (n + n_atoms b1) = cell_of b2 c2 n.
Proof.
  intros Hwf1 Hwf2 Hc1 Hc2 Hn.
  pose proof (join_batches_n_structures b1 b2 Hwf1 Hwf2) as Hns.
  pose proof (n_structures_pos b1 Hwf1) as Hpos1.
  pose proof (n_structures_pos b2 Hwf2) as Hpos2.
  pose proof (structure_index_length b1 Hwf1) as Hl1.
  pose proof (structure_index_length b2 Hwf2) as Hl2.
  pose proof (structure_index_range b2 Hwf2) as Hr2.
  unfold n_atoms in *.
  assert (Hin : 0 <= at_index (structure_index b2) n < n_structures b2).
  { rewrite Forall_forall in Hr2. apply Hr2.
    eapply list_elem_of_lookup_2. apply at_index_lookup. lia. }
  unfold cell_of. rewrite Hns.
  destruct (decide (n_structures b1 + n_structures b2 = 1)) as [|_]; [lia|].
  unfold structure_index at 1. simpl.
  rewrite <- Hl1. rewrite (at_index_app_r (structure_index b1)) by lia.
  rewrite at_index_fmap by lia.
  rewrite <- Hc1. rewrite (at_index_app_r c1) by lia.
  destruct (decide (n_structures b2 = 1)) as [H1|]; [|done].
  f_equal. apply single_structure_index; unfold n_atoms; done || lia.
Qed.

Lemma join_batches_displacement_l (p1 p2 : list vec3) e :
  0 <= e.1 < Z.of_nat (length p1) -> 0 <= e.2 < Z.of_nat (length p1) ->
  displacement (p1 ++ p2)%list e = displacement p1 e.
Proof. intros H1 H2. unfold displacement. by rewrite !at_index_app_l. Qed.

Lemma join_batches_displacement_r (p1 p2 : list vec3) (e : Z * Z) :
  0 <= e.1 -> 0 <= e.2 ->
  displacement (p1 ++ p2)%list
    (e.1 + Z.of_nat (length p1), e.2 + Z.of_nat (length p1))
  = displacement p2 e.
Proof. intros H1 H2. unfold displacement. simpl. by rewrite !at_index_app_r. Qed.

Lemma join_batches_edge_vectors b1 b2 :
  well_formed b1 -> well_formed b2 ->
  (is_Some (periodic b1) <-> is_Some (periodic b2)) ->
  edge_vectors (join_batches b1 b2) = (edge_vectors b1 ++ edge_vectors b2)%list.
Proof.
  intros Hwf1 Hwf2 Hper.
  pose proof Hwf1 as [He1 _ Hp1]. pose proof Hwf2 as [He2 _ Hp2].
  unfold edge_vectors.
  destruct (periodic b1) as [[c1 o1]|] eqn:E1,
           (periodic b2) as [[c2 o2]|] eqn:E2.
  - destruct Hp1 as [Hcl1 Hol1], Hp2 as [Hcl2 Hol2].
    assert (Hj : periodic (join_batches b1 b2) = Some ((c1 ++ c2)%list, (o1 ++ o2)%list)).
    { simpl. by rewrite E1, E2. }
    rewrite Hj. change (positions (join_batches b1 b2))
      with (positions b1 ++ positions b2)%list.
    change (edge_index (join_batches b1 b2))
      with (edge_index b1
            ++ ((fun e => (e.1 + n_atoms b1, e.2 + n_atoms b1))
                  <$> edge_index b2))%list.
    rewrite zip_with_app by done. f_equal.
    + eapply zip_with_ext_Forall; [exact He1|]. intros e o [H1 H2]. simpl.
      unfold n_atoms in *.
      rewrite join_batches_displacement_l by done.
      by rewrite join_batches_cell_l.
    + rewrite zip_with_fmap_l.
      eapply zip_with_ext_Forall; [exact He2|]. intros e o [H1 H2]. simpl.
      unfold n_atoms at 1 2.
      rewrite join_batches_displacement_r by lia.
      by rewrite join_batches_cell_r.
  - destruct Hper as [Hper _]. destruct (Hper (mk_is_Some _ _ eq_refl)). done.
  - destruct Hper as [_ Hper]. destruct (Hper (mk_is_Some _ _ eq_refl)). done.
  - assert (Hj : periodic (join_batches b1 b2) = None).
    { simpl. by rewrite E1. }
    rewrite Hj. simpl. rewrite fmap_app. f_equal.
    + apply Forall_fmap_ext_1. eapply Forall_impl; [exact He1|].
      intros e [H1 H2]. simpl. by apply join_batches_displacement_l.
    + rewrite <- list_fmap_compose. apply Forall_fmap_ext_1.
      eapply Forall_impl; [exact He2|].
      intros e [H1 H2]. simpl. unfold n_atoms.
      apply join_batches_displacement_r; lia.
Qed.

(** X18: the structures of a batch do not interact.  Preparing two
    well-formed batches laid out as one gives the edge vectors and edge
    lengths of the first followed by those of the second. *)
Theorem joined_batch_has_separate_edges data1 data2 data b1 b2
    compute_forces compute_virial :
  represents data1 b1 -> well_formed b1 ->
  represents data2 b2 -> well_formed b2 ->
  represents data (join_batches b1 b2) ->
  (is_Some (periodic b1) <-> is_Some (periodic b2)) ->
  0 < n_atoms b2 ->
  exists out1 out2 out v1 v2,
    compute_edge_data data1 compute_forces compute_virial = Ok out1 /\
    compute_edge_data data2 compute_forces compute_virial = Ok out2 /\
    compute_edge_data data compute_forces compute_virial = Ok out /\
    holds out1 keys.EDGE_VECTOR (Float2 v1) /\
    holds out2 keys.EDGE_VECTOR (Float2 v2) /\
    holds out keys.EDGE_VECTOR (Float2 (v1 ++ v2)%list) /\
    holds out1 keys.EDGE_LENGTH (Float1 (Vec3.norm <$> v1)) /\
    holds out2 keys.EDGE_LENGTH (Float1 (Vec3.norm <$> v2)) /\
    holds out keys.EDGE_LENGTH
      (Float1 ((Vec3.norm <$> v1) ++ (Vec3.norm <$> v2))%list).
Proof.
  intros Hrep1 Hwf1 Hrep2 Hwf2 Hrep Hper Hne.
  pose proof (join_batches_well_formed b1 b2 Hwf1 Hwf2 Hper Hne) as Hwf.
  destruct (compute_edge_data_spec _ _ compute_forces compute_virial Hrep1 Hwf1)
    as (out1 & Hout1 & P1).
  destruct (compute_edge_data_spec _ _ compute_forces compute_virial Hrep2 Hwf2)
    as (out2 & Hout2 & P2).
  destruct (compute_edge_data_spec _ _ compute_forces compute_virial Hrep Hwf)
    as (out & Hout & P).
  exists out1, out2, out, (edge_vectors b1), (edge_vectors b2).
  pose proof (ep_vector _ _ _ _ _ P) as Hv.
  pose proof (ep_length _ _ _ _ _ P) as Hl.
  rewrite (join_batches_edge_vectors b1 b2 Hwf1 Hwf2 Hper) in Hv, Hl.
  rewrite fmap_app in Hl.
  split_and!; try done.
  - apply (ep_vector _ _ _ _ _ P1).
  - apply (ep_vector _ _ _ _ _ P2).
  - apply (ep_length _ _ _ _ _ P1).
  - apply (ep_length _ _ _ _ _ P2).
Qed.

Lemma joined_batch_has_separate_edges_witness :
  exists out1 out2 out v1 v2,
    compute_edge_data (to_dict periodic_pair) true true = Ok out1 /\
    compute_edge_data (to_dict collated_pair) true true = Ok out2 /\
    compute_edge_data (to_dict (join_batches periodic_pair collated_pair))
      true true = Ok out /\
    holds out1 keys.EDGE_VECTOR (Float2 v1) /\
    holds out2 keys.EDGE_VECTOR (Float2 v2) /\
    holds out keys.EDGE_VECTOR (Float2 (v1 ++ v2)%list) /\
    holds out1 keys.EDGE_LENGTH (Float1 (Vec3.norm <$> v1)) /\
    holds out2 keys.EDGE_LENGTH (Float1 (Vec3.norm <$> v2)) /\
    holds out keys.EDGE_LENGTH
      (Float1 ((Vec3.norm <$> v1) ++ (Vec3.norm <$> v2))%list).
Proof.
  apply (joined_batch_has_separate_edges _ _ _ periodic_pair collated_pair
           true true).
  - apply represents_to_dict.
  - apply well_formed_periodic_pair.
  - apply represents_to_dict.
  - apply well_formed_collated_pair.
  - apply represents_to_dict.
  - split; intros _; eexists; reflexivity.
  - unfold n_atoms. simpl. lia.
Defined.
